(** * Lumina: the Gemini service wrapper and the run handlers of the App

    A shallow embedding of [services/geminiService.ts] and of the three run
    handlers of [App.tsx].  Asynchronous functions are interaction trees over
    the events of the outside world (the SDK, the browser, AI Studio); a
    rejected promise is a [Thrown] completion.  The component state of the
    App is passed explicitly. *)

From Stdlib Require Import String Ascii List ZArith Bool Lia.
From ITree Require Import ITree Eq.Shallow.
Import ListNotations.
Local Open Scope list_scope.
Local Open Scope string_scope.

(** ** JavaScript values used by the code *)

Module Js.

(** An [Error] object: the code only ever reads its [message]. *)
Record Error : Type := mkError { message : string }.

(** How an awaited call ends: normally with a value, or by throwing. *)
Inductive completion (A : Type) : Type :=
| Normal (a : A)
| Thrown (e : Error).
Arguments Normal {A} a.
Arguments Thrown {A} e.

(** Truthiness of a string: only the empty string is falsy. *)
Definition truthy (s : string) : bool :=
  match s with
  | EmptyString => false
  | String _ _ => true
  end.

(** Truthiness of [string | null | undefined]. *)
Definition truthy_opt (o : option string) : bool :=
  match o with
  | None => false
  | Some s => truthy s
  end.

(** Truthiness of [boolean | undefined]. *)
Definition truthy_flag (o : option bool) : bool :=
  match o with
  | Some true => true
  | _ => false
  end.

(** [a || b] on strings. *)
Definition or_else (a b : string) : string :=
  if truthy a then a else b.

(** [${v}] inside a template literal, for [string | undefined]. *)
Definition interpolate (o : option string) : string :=
  match o with
  | Some s => s
  | None => "undefined"
  end.

(** [s.split(c)] for a one-character separator [c]: the segments of [s]
    between the occurrences of [c], in order; never empty. *)
Fixpoint split (c : ascii) (s : string) : list string :=
  match s with
  | EmptyString => [EmptyString]
  | String a rest =>
      if Ascii.eqb a c then EmptyString :: split c rest
      else match split c rest with
           | seg :: segs => String a seg :: segs
           | [] => [String a EmptyString]
           end
  end.

(** [hay.startsWith(needle)]. *)
Fixpoint starts_with (needle hay : string) : bool :=
  match needle, hay with
  | EmptyString, _ => true
  | String a n', String b h' => Ascii.eqb a b && starts_with n' h'
  | String _ _, EmptyString => false
  end.

(** [hay.includes(needle)]. *)
Fixpoint includes (needle hay : string) : bool :=
  starts_with needle hay ||
  match hay with
  | EmptyString => false
  | String _ h' => includes needle h'
  end.

End Js.

Import Js.

(** ** types.ts *)

Inductive ToolType : Type := GENERATE | EDIT | ANIMATE | HISTORY.

(** [type ImageSize = '1K' | '2K' | '4K'] *)
Inductive ImageSize : Type := Size1K | Size2K | Size4K.

(** [type AspectRatio = '1:1' | '3:4' | '4:3' | '9:16' | '16:9'] *)
Inductive AspectRatio : Type := AR_1_1 | AR_3_4 | AR_4_3 | AR_9_16 | AR_16_9.

(** The string each member of the union is at run time. *)
Definition ImageSize_str (s : ImageSize) : string :=
  match s with
  | Size1K => "1K"
  | Size2K => "2K"
  | Size4K => "4K"
  end.

Definition AspectRatio_str (r : AspectRatio) : string :=
  match r with
  | AR_1_1 => "1:1"
  | AR_3_4 => "3:4"
  | AR_4_3 => "4:3"
  | AR_9_16 => "9:16"
  | AR_16_9 => "16:9"
  end.

Definition ImageSize_eqb (a b : ImageSize) : bool :=
  match a, b with
  | Size1K, Size1K | Size2K, Size2K | Size4K, Size4K => true
  | _, _ => false
  end.

Definition AspectRatio_eqb (a b : AspectRatio) : bool :=
  match a, b with
  | AR_1_1, AR_1_1 | AR_3_4, AR_3_4 | AR_4_3, AR_4_3
  | AR_9_16, AR_9_16 | AR_16_9, AR_16_9 => true
  | _, _ => false
  end.

Inductive AssetType : Type := image | video.

Record GeneratedAsset : Type := mkAsset {
  asset_id : string;
  asset_url : string;
  asset_type : AssetType;
  asset_prompt : string;
  asset_timestamp : Z
}.

(** ** The part of the @google/genai SDK the service touches

    The SDK is not part of the repository.  Its objects are modelled with
    the fields the service reads or writes; a field the service reaches
    through [?.] (or that an object literal may leave out) is an [option]. *)

Module Sdk.

(** [Blob]: inline data, a base64 payload and its MIME type. *)
Record Blob : Type := mkBlob {
  data : option string;
  mimeType : option string
}.

Record Part : Type := mkPart {
  inlineData : option Blob;
  text : option string
}.

Record Content : Type := mkContent { parts : option (list Part) }.

Record ImageConfig : Type := mkImageConfig {
  aspectRatio : option string;
  imageSize : option string
}.

Record GenerateContentConfig : Type := mkGenerateContentConfig {
  imageConfig : option ImageConfig
}.

Record GenerateContentParameters : Type := mkGenerateContentParameters {
  model : string;
  contents : Content;
  config : option GenerateContentConfig
}.

Record Candidate : Type := mkCandidate { content : option Content }.

Record GenerateContentResponse : Type := mkGenerateContentResponse {
  candidates : option (list Candidate)
}.

(** [image: { imageBytes, mimeType }] *)
Record Image : Type := mkImage {
  imageBytes : option string;
  imageMimeType : option string
}.

Record GenerateVideosConfig : Type := mkGenerateVideosConfig {
  numberOfVideos : Z;
  resolution : string;
  videoAspectRatio : string
}.

Record GenerateVideosParameters : Type := mkGenerateVideosParameters {
  videoModel : string;
  videoPrompt : string;
  videoImage : Image;
  videoConfig : GenerateVideosConfig
}.

Record Video : Type := mkVideo { uri : option string }.

Record GeneratedVideo : Type := mkGeneratedVideo { video : option Video }.

Record GenerateVideosResponse : Type := mkGenerateVideosResponse {
  generatedVideos : option (list GeneratedVideo)
}.

(** The handle of a long-running video generation. *)
Record GenerateVideosOperation : Type := mkOperation {
  name : option string;
  done : option bool;
  response : option GenerateVideosResponse
}.

(** [new GoogleGenAI({ apiKey })]: a client remembers the key it got. *)
Record GoogleGenAI : Type := mkGoogleGenAI { apiKey : option string }.

End Sdk.

(** ** The outside world

    Every call that leaves the code is an event; its answer is what the
    awaited call produced.  Calls that can reject answer with a
    [completion]. *)

(** The body of a fetched HTTP response (an opaque [Blob] of the browser). *)
Record FetchedBlob : Type := mkFetchedBlob { blob_bytes : string }.

(** An HTTP [Response] as [fetch] resolves it. *)
Record FetchResponse : Type := mkFetchResponse { response_url : string }.

Variant worldE : Type -> Type :=
(* process.env.API_KEY *)
| EnvApiKey : worldE (option string)
(* new GoogleGenAI({ apiKey }) *)
| NewGoogleGenAI (key : option string) : worldE (completion Sdk.GoogleGenAI)
(* ai.models.generateContent(params) *)
| GenerateContent (ai : Sdk.GoogleGenAI) (params : Sdk.GenerateContentParameters)
    : worldE (completion Sdk.GenerateContentResponse)
(* ai.models.generateVideos(params) *)
| GenerateVideos (ai : Sdk.GoogleGenAI) (params : Sdk.GenerateVideosParameters)
    : worldE (completion Sdk.GenerateVideosOperation)
(* ai.operations.getVideosOperation({ operation }) *)
| GetVideosOperation (ai : Sdk.GoogleGenAI) (operation : Sdk.GenerateVideosOperation)
    : worldE (completion Sdk.GenerateVideosOperation)
(* new Promise(resolve => setTimeout(resolve, ms)) *)
| SetTimeout (ms : Z) : worldE unit
(* fetch(url) *)
| Fetch (url : string) : worldE (completion FetchResponse)
(* response.blob() *)
| ResponseBlob (r : FetchResponse) : worldE (completion FetchedBlob)
(* URL.createObjectURL(blob) *)
| CreateObjectURL (b : FetchedBlob) : worldE string
(* window.aistudio.hasSelectedApiKey() *)
| HasSelectedApiKey : worldE (completion bool)
(* window.aistudio.openSelectKey() *)
| OpenSelectKey : worldE (completion unit)
(* console.error(label, e) *)
| ConsoleError (label : string) (e : Js.Error) : worldE unit
(* Math.random().toString(36).substring(7) *)
| RandomId : worldE string
(* Date.now() *)
| DateNow : worldE Z.

(** An asynchronous function returning [Promise<A>]. *)
Definition async (A : Type) : Type := itree worldE (completion A).

(** [await t] followed by [k]: a rejection of [t] skips [k]. *)
Definition await {A B : Type} (t : async A) (k : A -> async B) : async B :=
  ITree.bind t (fun c =>
    match c with
    | Normal a => k a
    | Thrown e => Ret (Thrown e)
    end).

(** A call whose answer is its completion. *)
Definition call {A : Type} (e : worldE (completion A)) : async A :=
  ITree.trigger e.

(** A call that cannot throw. *)
Definition perform {A : Type} (e : worldE A) : async A :=
  ITree.bind (ITree.trigger e) (fun a => Ret (Normal a)).

Definition resolve {A : Type} (a : A) : async A := Ret (Normal a).

(** [throw new Error(msg)] *)
Definition throw {A : Type} (msg : string) : async A :=
  Ret (Thrown (mkError msg)).

Declare Scope async_scope.
Delimit Scope async_scope with async.
Notation "x <~ t ;; k" := (await t (fun x => k))
  (at level 61, t at next level, right associativity) : async_scope.
Notation "t ;;; k" := (await t (fun _ => k))
  (at level 61, right associativity) : async_scope.
Local Open Scope async_scope.

(** ** services/geminiService.ts *)

Module GeminiService.

(** [getAI]: a fresh client on the current [process.env.API_KEY]. *)
Definition getAI : async Sdk.GoogleGenAI :=
  key <~ perform EnvApiKey ;;
  call (NewGoogleGenAI key).

Definition isHighRes (size : ImageSize) : bool :=
  ImageSize_eqb size Size2K || ImageSize_eqb size Size4K.

(** The argument of [generateContent] in [generateImage]. *)
Definition generateImage_params
    (prompt : string) (size : ImageSize) (aspectRatio : AspectRatio)
  : Sdk.GenerateContentParameters :=
  let model :=
    if isHighRes size then "gemini-3-pro-image-preview"
    else "gemini-2.5-flash-image" in
  {| Sdk.model := model;
     Sdk.contents :=
       {| Sdk.parts := Some [ {| Sdk.inlineData := None; Sdk.text := Some prompt |} ] |};
     Sdk.config := Some
       {| Sdk.imageConfig := Some
            {| Sdk.aspectRatio := Some (AspectRatio_str aspectRatio);
               (* ...(isHighRes ? { imageSize: size } : {}) *)
               Sdk.imageSize :=
                 if isHighRes size then Some (ImageSize_str size) else None |} |} |}.

(** [response.candidates?.[0]?.content?.parts || []] *)
Definition response_parts (response : Sdk.GenerateContentResponse) : list Sdk.Part :=
  match Sdk.candidates response with
  | Some (candidate :: _) =>
      match Sdk.content candidate with
      | Some content =>
          match Sdk.parts content with
          | Some parts => parts
          | None => []
          end
      | None => []
      end
  | Some [] | None => []
  end.

(** The [for (const part of ...)] loop shared by [generateImage] and
    [editImage]: the value of the first [return] it reaches, if any. *)
Fixpoint first_inline_url (parts : list Sdk.Part) : option string :=
  match parts with
  | [] => None
  | part :: rest =>
      match Sdk.inlineData part with
      | Some inlineData =>
          Some ("data:image/png;base64," ++ interpolate (Sdk.data inlineData))
      | None => first_inline_url rest
      end
  end.

Definition generateImage
    (prompt : string) (size : ImageSize) (aspectRatio : AspectRatio)
  : async string :=
  ai <~ getAI ;;
  response <~ call (GenerateContent ai (generateImage_params prompt size aspectRatio)) ;;
  match first_inline_url (response_parts response) with
  | Some url => resolve url
  | None => throw "No image data returned from model"
  end.

(** [dataUrl.split(',')[1]] *)
Definition after_comma (dataUrl : string) : option string :=
  nth_error (split "," dataUrl) 1.

(** The argument of [generateContent] in [editImage]. *)
Definition editImage_params
    (baseImageBase64 colorImageBase64 prompt : string)
  : Sdk.GenerateContentParameters :=
  {| Sdk.model := "gemini-2.5-flash-image";
     Sdk.contents :=
       {| Sdk.parts := Some
            [ {| Sdk.inlineData := Some
                   {| Sdk.data := after_comma baseImageBase64;
                      Sdk.mimeType := Some "image/png" |};
                 Sdk.text := None |};
              {| Sdk.inlineData := Some
                   {| Sdk.data := after_comma colorImageBase64;
                      Sdk.mimeType := Some "image/png" |};
                 Sdk.text := None |};
              {| Sdk.inlineData := None;
                 Sdk.text := Some
                   ("Combine these two images. Use the first image as the subject and the second image's color palette, style, and lighting. Details: "
                      ++ prompt) |} ] |};
     Sdk.config := None |}.

Definition editImage
    (baseImageBase64 colorImageBase64 prompt : string)
  : async string :=
  ai <~ getAI ;;
  response <~ call (GenerateContent ai
                      (editImage_params baseImageBase64 colorImageBase64 prompt)) ;;
  match first_inline_url (response_parts response) with
  | Some url => resolve url
  | None => throw "No edited image data returned"
  end.

(** [(aspectRatio === '9:16') ? '9:16' : '16:9'] *)
Definition validAspectRatio (aspectRatio : AspectRatio) : string :=
  if AspectRatio_eqb aspectRatio AR_9_16 then "9:16" else "16:9".

(** The argument of [generateVideos] in [animateImage]. *)
Definition animateImage_params
    (imageBase64 prompt : string) (aspectRatio : AspectRatio)
  : Sdk.GenerateVideosParameters :=
  {| Sdk.videoModel := "veo-3.1-fast-generate-preview";
     Sdk.videoPrompt := or_else prompt "Cinematic animation of this scene";
     Sdk.videoImage :=
       {| Sdk.imageBytes := after_comma imageBase64;
          Sdk.imageMimeType := Some "image/png" |};
     Sdk.videoConfig :=
       {| Sdk.numberOfVideos := 1;
          Sdk.resolution := "1080p";
          Sdk.videoAspectRatio := validAspectRatio aspectRatio |} |}.

(** One turn of [while (!operation.done) { ... }]: [inr] leaves the loop
    (with the operation, or with the rejection of the poll), [inl]
    goes round again with the operation just received. *)
Definition poll_step (ai : Sdk.GoogleGenAI) (operation : Sdk.GenerateVideosOperation)
  : itree worldE (Sdk.GenerateVideosOperation + completion Sdk.GenerateVideosOperation) :=
  if negb (truthy_flag (Sdk.done operation)) then
    ITree.bind (ITree.trigger (SetTimeout 10000)) (fun _ =>
    ITree.bind (ITree.trigger (GetVideosOperation ai operation)) (fun c =>
      match c with
      | Normal operation' => Ret (inl operation')
      | Thrown e => Ret (inr (Thrown e))
      end))
  else Ret (inr (Normal operation)).

(** The [while] loop of [animateImage]. *)
Definition poll (ai : Sdk.GoogleGenAI)
  : Sdk.GenerateVideosOperation -> async Sdk.GenerateVideosOperation :=
  ITree.iter (poll_step ai).

(** [operation.response?.generatedVideos?.[0]?.video?.uri] *)
Definition downloadLink (operation : Sdk.GenerateVideosOperation) : option string :=
  match Sdk.response operation with
  | Some response =>
      match Sdk.generatedVideos response with
      | Some (first :: _) =>
          match Sdk.video first with
          | Some v => Sdk.uri v
          | None => None
          end
      | Some [] | None => None
      end
  | None => None
  end.

(** What [animateImage] does with the operation the loop ended on. *)
Definition download (operation : Sdk.GenerateVideosOperation) : async string :=
  let downloadLink := downloadLink operation in
  if negb (truthy_opt downloadLink) then throw "Video generation failed"
  else
    key <~ perform EnvApiKey ;;
    videoResponse <~ call (Fetch (interpolate downloadLink ++ "&key=" ++ interpolate key)) ;;
    blob <~ call (ResponseBlob videoResponse) ;;
    perform (CreateObjectURL blob).

Definition animateImage
    (imageBase64 prompt : string) (aspectRatio : AspectRatio)
  : async string :=
  ai <~ getAI ;;
  operation <~ call (GenerateVideos ai (animateImage_params imageBase64 prompt aspectRatio)) ;;
  operation <~ poll ai operation ;;
  download operation.

End GeminiService.

(** ** App.tsx: the component state and the three run handlers *)

Module App.

(** The [useState] cells of the component. *)
Record State : Type := mkState {
  activeTool : ToolType;
  loading : bool;
  loadingMessage : string;
  error : option string;
  assets : list GeneratedAsset;
  prompt : string;
  size : ImageSize;
  aspectRatio : AspectRatio;
  baseImage : option string;
  colorImage : option string;
  animateImage : option string
}.

Definition with_activeTool (v : ToolType) (st : State) : State :=
  mkState v (loading st) (loadingMessage st) (error st) (assets st) (prompt st)
          (size st) (aspectRatio st) (baseImage st) (colorImage st) (animateImage st).

Definition with_loading (v : bool) (st : State) : State :=
  mkState (activeTool st) v (loadingMessage st) (error st) (assets st) (prompt st)
          (size st) (aspectRatio st) (baseImage st) (colorImage st) (animateImage st).

Definition with_loadingMessage (v : string) (st : State) : State :=
  mkState (activeTool st) (loading st) v (error st) (assets st) (prompt st)
          (size st) (aspectRatio st) (baseImage st) (colorImage st) (animateImage st).

Definition with_error (v : option string) (st : State) : State :=
  mkState (activeTool st) (loading st) (loadingMessage st) v (assets st) (prompt st)
          (size st) (aspectRatio st) (baseImage st) (colorImage st) (animateImage st).

(** [setAssets(prev => f(prev))] *)
Definition update_assets (f : list GeneratedAsset -> list GeneratedAsset) (st : State) : State :=
  mkState (activeTool st) (loading st) (loadingMessage st) (error st) (f (assets st))
          (prompt st) (size st) (aspectRatio st) (baseImage st) (colorImage st)
          (animateImage st).

(** An event handler of the component: it runs on the current state, makes
    calls, and leaves a state and a completion. *)
Definition handler (A : Type) : Type :=
  State -> itree worldE (State * completion A).

Definition pure {A : Type} (a : A) : handler A :=
  fun st => Ret (st, Normal a).

Definition seq {A B : Type} (m : handler A) (k : A -> handler B) : handler B :=
  fun st =>
    ITree.bind (m st) (fun out =>
      match snd out with
      | Normal a => k a (fst out)
      | Thrown e => Ret (fst out, Thrown e)
      end).

(** [await t] inside a handler: the state is untouched by the call. *)
Definition awaiting {A : Type} (t : async A) : handler A :=
  fun st => ITree.bind t (fun c => Ret (st, c)).

(** A state setter. *)
Definition set (f : State -> State) : handler unit :=
  fun st => Ret (f st, Normal tt).

Definition setActiveTool (v : ToolType) : handler unit := set (with_activeTool v).
Definition setLoading (v : bool) : handler unit := set (with_loading v).
Definition setLoadingMessage (v : string) : handler unit := set (with_loadingMessage v).
Definition setError (v : option string) : handler unit := set (with_error v).
Definition setAssets (f : list GeneratedAsset -> list GeneratedAsset) : handler unit :=
  set (update_assets f).

(** [try { body } catch (err) { on_error err } finally { at_last }]:
    [at_last] runs in every case; what it throws replaces the outcome. *)
Definition try_catch_finally {A : Type}
    (body : handler A) (on_error : Js.Error -> handler A) (at_last : handler unit)
  : handler A :=
  fun st =>
    ITree.bind (body st) (fun out1 =>
    ITree.bind (match snd out1 with
                | Normal a => Ret (fst out1, Normal a)
                | Thrown err => on_error err (fst out1)
                end) (fun out2 =>
    ITree.bind (at_last (fst out2)) (fun out3 =>
      Ret (fst out3,
           match snd out3 with
           | Normal _ => snd out2
           | Thrown e => Thrown e
           end)))).

Declare Scope handler_scope.
Delimit Scope handler_scope with handler.
Notation "x <- m ;; k" := (seq m (fun x => k))
  (at level 61, m at next level, right associativity) : handler_scope.
Notation "m ;; k" := (seq m (fun _ => k))
  (at level 61, right associativity) : handler_scope.

(** [try { ... } catch (e) { console.error(...); return false; }] around the
    two AI Studio calls: [checkApiKey] never rejects. *)
Definition checkApiKey : async bool :=
  ITree.bind
    (hasKey <~ call HasSelectedApiKey ;;
     (if negb hasKey then call OpenSelectKey else resolve tt) ;;;
     resolve true)
    (fun c =>
       match c with
       | Normal b => resolve b
       | Thrown e =>
           perform (ConsoleError "API Key selection error" e) ;;;
           resolve false
       end).

Local Open Scope handler_scope.

Definition addAsset (url : string) (type : AssetType) (assetPrompt : string)
  : handler unit :=
  id <- awaiting (perform RandomId) ;;
  timestamp <- awaiting (perform DateNow) ;;
  let newAsset :=
    {| asset_id := id;
       asset_url := url;
       asset_type := type;
       asset_prompt := assetPrompt;
       asset_timestamp := timestamp |} in
  setAssets (fun prev => newAsset :: prev) ;;
  setActiveTool HISTORY.

(** The [catch] block the three handlers share but for the fallback text. *)
Definition on_failure (fallback : string) (err : Js.Error) : handler unit :=
  setError (Some (or_else (message err) fallback)) ;;
  if includes "Requested entity was not found" (message err)
  then awaiting (call OpenSelectKey)
  else pure tt.

Definition runGeneration : handler unit :=
  fun st =>
    let prompt := prompt st in
    let size := size st in
    let aspectRatio := aspectRatio st in
    (if negb (truthy prompt) then setError (Some "Please enter a prompt")
     else
       setLoading true ;;
       setLoadingMessage "Synthesizing your imagination..." ;;
       setError None ;;
       try_catch_finally
         (_ <- awaiting checkApiKey ;;
          url <- awaiting (GeminiService.generateImage prompt size aspectRatio) ;;
          addAsset url image prompt)
         (on_failure "Generation failed")
         (setLoading false)) st.

Definition runEditing : handler unit :=
  fun st =>
    let prompt := prompt st in
    match baseImage st, colorImage st with
    | Some baseImage, Some colorImage =>
        (if negb (truthy baseImage) || negb (truthy colorImage)
         then setError (Some "Please upload both images")
         else
           setLoading true ;;
           setLoadingMessage "Blending visuals and styles..." ;;
           setError None ;;
           try_catch_finally
             (_ <- awaiting checkApiKey ;;
              url <- awaiting (GeminiService.editImage baseImage colorImage prompt) ;;
              addAsset url image (or_else prompt "Styled Blend"))
             (on_failure "Editing failed")
             (setLoading false)) st
    | _, _ => setError (Some "Please upload both images") st
    end.

Definition runAnimation : handler unit :=
  fun st =>
    let prompt := prompt st in
    let aspectRatio := aspectRatio st in
    match animateImage st with
    | Some animateImage =>
        (if negb (truthy animateImage)
         then setError (Some "Please upload an image to animate")
         else
           setLoading true ;;
           setLoadingMessage "Breathing life into your pixels (this may take a minute)..." ;;
           setError None ;;
           try_catch_finally
             (_ <- awaiting checkApiKey ;;
              url <- awaiting (GeminiService.animateImage animateImage prompt aspectRatio) ;;
              addAsset url video (or_else prompt "Cinematic Motion"))
             (on_failure "Animation failed")
             (setLoading false)) st
    | None => setError (Some "Please upload an image to animate") st
    end.

End App.

(** ** Executions

    A finished execution of a tree is the list of the calls it made, each
    with the answer it got, and the value it ended on. *)

(** A call with its answer, one constructor per event. *)
Inductive Call : Type :=
| CEnvApiKey (answer : option string)
| CNewGoogleGenAI (key : option string) (answer : completion Sdk.GoogleGenAI)
| CGenerateContent (ai : Sdk.GoogleGenAI) (params : Sdk.GenerateContentParameters)
    (answer : completion Sdk.GenerateContentResponse)
| CGenerateVideos (ai : Sdk.GoogleGenAI) (params : Sdk.GenerateVideosParameters)
    (answer : completion Sdk.GenerateVideosOperation)
| CGetVideosOperation (ai : Sdk.GoogleGenAI) (operation : Sdk.GenerateVideosOperation)
    (answer : completion Sdk.GenerateVideosOperation)
| CSetTimeout (ms : Z)
| CFetch (url : string) (answer : completion FetchResponse)
| CResponseBlob (r : FetchResponse) (answer : completion FetchedBlob)
| CCreateObjectURL (b : FetchedBlob) (answer : string)
| CHasSelectedApiKey (answer : completion bool)
| COpenSelectKey (answer : completion unit)
| CConsoleError (label : string) (e : Js.Error)
| CRandomId (answer : string)
| CDateNow (answer : Z).

Definition answered {X : Type} (e : worldE X) : X -> Call :=
  match e in worldE X return X -> Call with
  | EnvApiKey => CEnvApiKey
  | NewGoogleGenAI key => CNewGoogleGenAI key
  | GenerateContent ai params => CGenerateContent ai params
  | GenerateVideos ai params => CGenerateVideos ai params
  | GetVideosOperation ai operation => CGetVideosOperation ai operation
  | SetTimeout ms => fun _ => CSetTimeout ms
  | Fetch url => CFetch url
  | ResponseBlob r => CResponseBlob r
  | CreateObjectURL b => CCreateObjectURL b
  | HasSelectedApiKey => CHasSelectedApiKey
  | OpenSelectKey => COpenSelectKey
  | ConsoleError label e => fun _ => CConsoleError label e
  | RandomId => CRandomId
  | DateNow => CDateNow
  end.

Definition trace : Type := list Call.

Section Runs.

Context {R : Type}.

Inductive runs : itree worldE R -> trace -> R -> Prop :=
| runs_ret t r :
    observe t = RetF r ->
    runs t [] r
| runs_tau t u tr r :
    observe t = TauF u ->
    runs u tr r ->
    runs t tr r
| runs_vis t X (e : worldE X) k (x : X) tr r :
    observe t = VisF e k ->
    runs (k x) tr r ->
    runs t (answered e x :: tr) r.

(** One step of an execution, read off the head of the tree. *)
Definition runs_head (t : itree worldE R) (tr : trace) (r : R) : Prop :=
  match observe t with
  | RetF r' => tr = [] /\ r = r'
  | TauF u => runs u tr r
  | VisF e k => exists x tr', tr = answered e x :: tr' /\ runs (k x) tr' r
  end.

(** An execution under way: the calls made so far, with their answers. *)
Inductive begins : itree worldE R -> trace -> Prop :=
| begins_here t :
    begins t []
| begins_tau t u tr :
    observe t = TauF u ->
    begins u tr ->
    begins t tr
| begins_vis t X (e : worldE X) k (x : X) tr :
    observe t = VisF e k ->
    begins (k x) tr ->
    begins t (answered e x :: tr).

(** Whatever was done so far, the execution can still finish. *)
Definition finishable (t : itree worldE R) : Prop :=
  forall pre, begins t pre -> exists post r, runs t (pre ++ post)%list r.

(** A runner: [w n e] is the answer of the world to the call [e] when
    [n] calls came before it.  [None] when the fuel runs out. *)
Fixpoint exec (fuel : nat) (w : nat -> forall X, worldE X -> X) (n : nat)
         (t : itree worldE R) : option (trace * R) :=
  match fuel with
  | O => None
  | S fuel' =>
      match observe t with
      | RetF r => Some ([], r)
      | TauF u => exec fuel' w n u
      | VisF e k =>
          let x := w n _ e in
          match exec fuel' w (S n) (k x) with
          | Some (tr, r) => Some (answered e x :: tr, r)
          | None => None
          end
      end
  end.

End Runs.

(** An answer to every call: the calls that can reject do. *)
Definition rejecting {X : Type} (e : worldE X) : X :=
  match e in worldE X return X with
  | EnvApiKey => None
  | NewGoogleGenAI _ => Thrown (mkError "rejected")
  | GenerateContent _ _ => Thrown (mkError "rejected")
  | GenerateVideos _ _ => Thrown (mkError "rejected")
  | GetVideosOperation _ _ => Thrown (mkError "rejected")
  | SetTimeout _ => tt
  | Fetch _ => Thrown (mkError "rejected")
  | ResponseBlob _ => Thrown (mkError "rejected")
  | CreateObjectURL _ => ""
  | HasSelectedApiKey => Thrown (mkError "rejected")
  | OpenSelectKey => Thrown (mkError "rejected")
  | ConsoleError _ _ => tt
  | RandomId => ""
  | DateNow => 0%Z
  end.

(** ** What a trace shows *)

(** The arguments of the [generateContent] calls, in order. *)
Definition content_requests (tr : trace) : list Sdk.GenerateContentParameters :=
  flat_map (fun c => match c with
                     | CGenerateContent _ params _ => [params]
                     | _ => []
                     end) tr.

(** The arguments of the [generateVideos] calls, in order. *)
Definition video_requests (tr : trace) : list Sdk.GenerateVideosParameters :=
  flat_map (fun c => match c with
                     | CGenerateVideos _ params _ => [params]
                     | _ => []
                     end) tr.

(** The operation the client holds after the calls of [tr]: the last one
    that [generateVideos] or [getVideosOperation] resolved to. *)
Fixpoint held_operation (held : option Sdk.GenerateVideosOperation) (tr : trace)
  : option Sdk.GenerateVideosOperation :=
  match tr with
  | [] => held
  | CGenerateVideos _ _ (Normal op) :: rest => held_operation (Some op) rest
  | CGetVideosOperation _ _ (Normal op) :: rest => held_operation (Some op) rest
  | _ :: rest => held_operation held rest
  end.

(** The [done] flag of an operation is set. *)
Definition is_done (op : Sdk.GenerateVideosOperation) : Prop :=
  Sdk.done op = Some true.

(** The calls of the loop when it starts on [op] and the polls resolve to
    the operations [later], in order. *)
Fixpoint polls (ai : Sdk.GoogleGenAI) (op : Sdk.GenerateVideosOperation)
         (later : list Sdk.GenerateVideosOperation) : trace :=
  match later with
  | [] => []
  | op' :: rest =>
      CSetTimeout 10000 :: CGetVideosOperation ai op (Normal op') :: polls ai op' rest
  end.

(** The calls of [getAI]. *)
Definition client_calls (key : option string) (ai : Sdk.GoogleGenAI) : trace :=
  [CEnvApiKey key; CNewGoogleGenAI key (Normal ai)].

(** A base64 data URL, as [FileReader.readAsDataURL] produces it. *)
Definition data_url (mime payload : string) : string :=
  "data:" ++ mime ++ ";base64," ++ payload.

Fixpoint comma_free (s : string) : bool :=
  match s with
  | EmptyString => true
  | String a rest => negb (Ascii.eqb a ",") && comma_free rest
  end.

(** The part carries inline data. *)
Definition carries_inline (part : Sdk.Part) : bool :=
  match Sdk.inlineData part with
  | Some _ => true
  | None => false
  end.


(** How [generateImage] and [editImage] end once [generateContent] has
    answered [c]; [msg] is the text of their own error. *)
Definition image_outcome (msg : string) (c : completion Sdk.GenerateContentResponse)
  : completion string :=
  match c with
  | Normal response =>
      match find carries_inline (GeminiService.response_parts response) with
      | Some part =>
          Normal ("data:image/png;base64,"
                    ++ interpolate (match Sdk.inlineData part with
                                    | Some blob => Sdk.data blob
                                    | None => None
                                    end))
      | None => Thrown (mkError msg)
      end
  | Thrown e => Thrown e
  end.

(** The shape [generateImage] and [editImage] share: one [generateContent]
    call on a fresh client, then the loop over the parts of the answer. *)
Definition request_image (params : Sdk.GenerateContentParameters) (msg : string)
  : async string :=
  ai <~ GeminiService.getAI ;;
  response <~ call (GenerateContent ai params) ;;
  match GeminiService.first_inline_url (GeminiService.response_parts response) with
  | Some url => resolve url
  | None => throw msg
  end.

(** A world to run the code in: the key in the environment, the answer
    of [generateContent], the answer of the video calls as a function of
    the number of calls made before, and the answers of the AI Studio
    calls.  Everything else succeeds. *)
Definition scripted_world
    (key : option string)
    (content : completion Sdk.GenerateContentResponse)
    (videos : nat -> completion Sdk.GenerateVideosOperation)
    (hasKey : completion bool)
  : nat -> forall X, worldE X -> X :=
  fun n X e =>
    match e in worldE X return X with
    | EnvApiKey => key
    | NewGoogleGenAI k => Normal {| Sdk.apiKey := k |}
    | GenerateContent _ _ => content
    | GenerateVideos _ _ => videos n
    | GetVideosOperation _ _ => videos n
    | SetTimeout _ => tt
    | Fetch url => Normal {| response_url := url |}
    | ResponseBlob _ => Normal {| blob_bytes := "AAAAIGZ0eXBpc29t" |}
    | CreateObjectURL _ => "blob:https://lumina.app/3f1c"
    | HasSelectedApiKey => hasKey
    | OpenSelectKey => Normal tt
    | ConsoleError _ _ => tt
    | RandomId => "k3x9f"
    | DateNow => 1767225600000%Z
    end.

(** The first generated video of the response of [op] has a URI to
    download from: a link that is there and not empty. *)
Definition has_video_uri (op : Sdk.GenerateVideosOperation) : Prop :=
  exists link, GeminiService.downloadLink op = Some link /\ link <> "".

(** ** The response, in the words of the specification

    The candidates, the parts and the generated videos the specification
    speaks of, read off the data of the SDK and not off the code: what
    [GeminiService.response_parts] and [GeminiService.downloadLink] pick
    is compared with them. *)

(** The candidates of a response: none when the field is absent. *)
Definition candidates_of (response : Sdk.GenerateContentResponse)
  : list Sdk.Candidate :=
  match Sdk.candidates response with
  | Some cs => cs
  | None => []
  end.

(** The parts of the content of a candidate. *)
Definition parts_of (candidate : Sdk.Candidate) : list Sdk.Part :=
  match Sdk.content candidate with
  | Some content =>
      match Sdk.parts content with
      | Some ps => ps
      | None => []
      end
  | None => []
  end.

(** The parts of the content of the first candidate of a response. *)
Definition first_candidate_parts (response : Sdk.GenerateContentResponse)
  : list Sdk.Part :=
  match hd_error (candidates_of response) with
  | Some candidate => parts_of candidate
  | None => []
  end.


(** The generated videos of the response of an operation. *)
Definition generated_videos_of (op : Sdk.GenerateVideosOperation)
  : list Sdk.GeneratedVideo :=
  match Sdk.response op with
  | Some response =>
      match Sdk.generatedVideos response with
      | Some vs => vs
      | None => []
      end
  | None => []
  end.

(** The URI of a generated video. *)
Definition uri_of (generated : Sdk.GeneratedVideo) : option string :=
  match Sdk.video generated with
  | Some v => Sdk.uri v
  | None => None
  end.

(** The URI of the first generated video of the response of [op]. *)
Definition first_video_uri (op : Sdk.GenerateVideosOperation) : option string :=
  match hd_error (generated_videos_of op) with
  | Some generated => uri_of generated
  | None => None
  end.

(** The first generated video has a URI to fetch: one that is there and
    is not the empty string. *)
Definition first_video_has_uri (op : Sdk.GenerateVideosOperation) : Prop :=
  exists link, first_video_uri op = Some link /\ link <> "".

(** The call made last in [pre], if any. *)
Definition last_call (pre : trace) : option Call :=
  last (map Some pre) None.

(** The poll discipline, at one call [c] of an execution: [held] is the
    operation the client holds when it makes the call, [before] the call
    made just before, [post] the calls made after.
    - A wait lasts 10 seconds, is made while the operation held is not
      done, and is followed at once by the poll of that operation.
    - A poll asks for the operation held, which is not done, and comes
      right after a wait of 10 seconds.
    - An operation received that is not done is followed at once by a wait
      of 10 seconds and the poll of that operation.
    - A fetch is made only while the operation held is done. *)
Definition call_allowed
    (held : option Sdk.GenerateVideosOperation) (before : option Call)
    (c : Call) (post : trace) : Prop :=
  let polled_next ai op :=
    ~ is_done op ->
    exists x post', post = CSetTimeout 10000 :: CGetVideosOperation ai op x :: post' in
  match c with
  | CSetTimeout ms =>
      ms = 10000%Z /\
      exists op, held = Some op /\ ~ is_done op /\
                 exists ai x post', post = CGetVideosOperation ai op x :: post'
  | CGetVideosOperation ai op answer =>
      held = Some op /\ ~ is_done op /\ before = Some (CSetTimeout 10000) /\
      match answer with
      | Normal op' => polled_next ai op'
      | Thrown _ => True
      end
  | CGenerateVideos ai _ (Normal op) => polled_next ai op
  | CFetch _ _ => exists op, held = Some op /\ is_done op
  | _ => True
  end.

(** The discipline at every call of a trace that starts with the client
    holding [held], after the call [before]. *)
Fixpoint all_allowed
    (held : option Sdk.GenerateVideosOperation) (before : option Call)
    (tr : trace) : Prop :=
  match tr with
  | [] => True
  | c :: post =>
      call_allowed held before c post /\
      all_allowed (held_operation held [c]) (Some c) post
  end.

(** What the three run handlers do once their guard has passed. *)
Definition guarded_run
    (message : string) (service : async string) (type : AssetType)
    (assetPrompt fallback : string) : App.handler unit :=
  App.seq (App.setLoading true) (fun _ =>
  App.seq (App.setLoadingMessage message) (fun _ =>
  App.seq (App.setError None) (fun _ =>
  App.try_catch_finally
    (App.seq (App.awaiting App.checkApiKey) (fun _ =>
     App.seq (App.awaiting service) (fun url =>
     App.addAsset url type assetPrompt)))
    (App.on_failure fallback)
    (App.setLoading false)))).

(** The state a run handler leaves when it gets past its guard on [st]
    and makes the calls [tr]: the loading flag is down; the key check and
    the service call were made, in this order; if the service returned a
    URL, one asset with that URL, [type] and [assetPrompt] is in front of
    the assets, the tool is HISTORY and the error is cleared; if it threw,
    assets and tool are as they were and the error is the message of what
    was thrown, or [fallback] when that message is empty. *)
Definition run_outcome
    (service : async string) (type : AssetType) (assetPrompt fallback : string)
    (st : App.State) (tr : trace) (st' : App.State) : Prop :=
  App.loading st' = false /\
  exists tr_key ok tr_service result tr_rest,
    tr = (tr_key ++ tr_service ++ tr_rest)%list /\
    runs App.checkApiKey tr_key (Normal ok) /\
    runs service tr_service result /\
    match result with
    | Normal url =>
        exists id timestamp,
        App.assets st' =
          {| asset_id := id; asset_url := url; asset_type := type;
             asset_prompt := assetPrompt; asset_timestamp := timestamp |}
            :: App.assets st /\
        App.activeTool st' = HISTORY /\
        App.error st' = None
    | Thrown err =>
        App.assets st' = App.assets st /\
        App.activeTool st' = App.activeTool st /\
        App.error st' = Some (or_else (message err) fallback)
    end.

(** What a run handler does when its guard stops it: it returns having
    made no call at all (and it is never under way with a call made), sets
    the error to [msg], and leaves the loading flag and the assets as they
    were. *)
Definition guard_outcome (h : App.handler unit) (msg : string) (st : App.State) : Prop :=
  exists st',
    runs (h st) [] (st', Normal tt) /\
    (forall tr out, runs (h st) tr out -> tr = [] /\ out = (st', Normal tt)) /\
    (forall pre, begins (h st) pre -> pre = []) /\
    App.error st' = Some msg /\
    App.loading st' = App.loading st /\
    App.assets st' = App.assets st.

(** ** Sample values, for running the code *)

Module Sample.

Definition key : option string := Some "AIza-demo".

Definition ai : Sdk.GoogleGenAI := {| Sdk.apiKey := key |}.

Definition text_part : Sdk.Part :=
  {| Sdk.inlineData := None; Sdk.text := Some "Here is your image." |}.

Definition png_part : Sdk.Part :=
  {| Sdk.inlineData := Some {| Sdk.data := Some "iVBORw0KGgo=";
                               Sdk.mimeType := Some "image/png" |};
     Sdk.text := None |}.

Definition candidate (ps : list Sdk.Part) : Sdk.Candidate :=
  {| Sdk.content := Some {| Sdk.parts := Some ps |} |}.

(** One candidate: a caption, then the image. *)
Definition image_response : Sdk.GenerateContentResponse :=
  {| Sdk.candidates := Some [candidate [text_part; png_part]] |}.

(** One candidate with a caption and no image. *)
Definition text_response : Sdk.GenerateContentResponse :=
  {| Sdk.candidates := Some [candidate [text_part]] |}.


Definition pending : Sdk.GenerateVideosOperation :=
  {| Sdk.name := Some "operations/veo-42"; Sdk.done := None; Sdk.response := None |}.

Definition still_pending : Sdk.GenerateVideosOperation :=
  {| Sdk.name := Some "operations/veo-42"; Sdk.done := Some false; Sdk.response := None |}.

Definition finished : Sdk.GenerateVideosOperation :=
  {| Sdk.name := Some "operations/veo-42";
     Sdk.done := Some true;
     Sdk.response := Some
       {| Sdk.generatedVideos := Some
            [ {| Sdk.video := Some
                   {| Sdk.uri := Some "https://video.example/v1/files/42:download?alt=media" |} |} ] |} |}.

(** Done, but without a video. *)
Definition finished_empty : Sdk.GenerateVideosOperation :=
  {| Sdk.name := Some "operations/veo-42";
     Sdk.done := Some true;
     Sdk.response := Some {| Sdk.generatedVideos := Some [] |} |}.

(** The video calls of a generation that is done at the second poll:
    [generateVideos] is the third call (two calls make the client), the
    polls are the fifth and the seventh. *)
Definition two_polls (last : Sdk.GenerateVideosOperation) (n : nat)
  : completion Sdk.GenerateVideosOperation :=
  match n with
  | 2 => Normal pending
  | 4 => Normal still_pending
  | _ => Normal last
  end.

Definition no_videos (n : nat) : completion Sdk.GenerateVideosOperation :=
  Thrown (mkError "no video call expected").

Definition url : string := "blob:https://lumina.app/3f1c".

Definition base : string := data_url "image/png" "iVBORw0KGgo=".


(** [animateImage base "" '9:16'], done at the second poll. *)
Definition animation_trace : trace :=
  [CEnvApiKey key;
   CNewGoogleGenAI key (Normal ai);
   CGenerateVideos ai (GeminiService.animateImage_params base "" AR_9_16) (Normal pending);
   CSetTimeout 10000;
   CGetVideosOperation ai pending (Normal still_pending);
   CSetTimeout 10000;
   CGetVideosOperation ai still_pending (Normal finished);
   CEnvApiKey key;
   CFetch "https://video.example/v1/files/42:download?alt=media&key=AIza-demo"
     (Normal {| response_url :=
                  "https://video.example/v1/files/42:download?alt=media&key=AIza-demo" |});
   CResponseBlob
     {| response_url :=
          "https://video.example/v1/files/42:download?alt=media&key=AIza-demo" |}
     (Normal {| blob_bytes := "AAAAIGZ0eXBpc29t" |});
   CCreateObjectURL {| blob_bytes := "AAAAIGZ0eXBpc29t" |} url].

(** The component as it is mounted. *)
Definition initial : App.State :=
  {| App.activeTool := GENERATE;
     App.loading := false;
     App.loadingMessage := "";
     App.error := None;
     App.assets := [];
     App.prompt := "";
     App.size := Size1K;
     App.aspectRatio := AR_1_1;
     App.baseImage := None;
     App.colorImage := None;
     App.animateImage := None |}.

(** A prompt typed on the Create tab. *)
Definition prompted : App.State :=
  {| App.activeTool := GENERATE;
     App.loading := false;
     App.loadingMessage := "";
     App.error := None;
     App.assets := [];
     App.prompt := "a red fox";
     App.size := Size1K;
     App.aspectRatio := AR_1_1;
     App.baseImage := None;
     App.colorImage := None;
     App.animateImage := None |}.

(** An image uploaded on the Animate tab, no motion described. *)
Definition uploaded : App.State :=
  {| App.activeTool := ANIMATE;
     App.loading := false;
     App.loadingMessage := "";
     App.error := None;
     App.assets := [];
     App.prompt := "";
     App.size := Size1K;
     App.aspectRatio := AR_9_16;
     App.baseImage := None;
     App.colorImage := None;
     App.animateImage := Some base |}.

(** The video calls of [two_polls], one call later: the handlers ask AI
    Studio for the key first. *)
Definition two_polls_later (last : Sdk.GenerateVideosOperation) (n : nat)
  : completion Sdk.GenerateVideosOperation :=
  two_polls last (pred n).


(** An inline part without data. *)
Definition empty_part : Sdk.Part :=
  {| Sdk.inlineData := Some {| Sdk.data := None; Sdk.mimeType := Some "image/jpeg" |};
     Sdk.text := None |}.


(** Two candidates: the first has an inline part without data, the
    second the PNG. *)
Definition empty_first_response : Sdk.GenerateContentResponse :=
  {| Sdk.candidates := Some [candidate [empty_part]; candidate [png_part]] |}.

(** Done, with two videos. *)
Definition finished_two : Sdk.GenerateVideosOperation :=
  {| Sdk.name := Some "operations/veo-42";
     Sdk.done := Some true;
     Sdk.response := Some
       {| Sdk.generatedVideos := Some
            [ {| Sdk.video := Some
                   {| Sdk.uri := Some "https://video.example/v1/files/42:download?alt=media" |} |};
              {| Sdk.video := Some
                   {| Sdk.uri := Some "https://video.example/v1/files/43:download?alt=media" |} |} ] |} |}.

(** Done, with two generated videos of which only the second has a
    video. *)
Definition finished_second_only : Sdk.GenerateVideosOperation :=
  {| Sdk.name := Some "operations/veo-42";
     Sdk.done := Some true;
     Sdk.response := Some
       {| Sdk.generatedVideos := Some
            [ {| Sdk.video := None |};
              {| Sdk.video := Some
                   {| Sdk.uri := Some "https://video.example/v1/files/43:download?alt=media" |} |} ] |} |}.

End Sample.

(** ** More of what a trace shows *)

(** The error a call was rejected with, if it was. *)
Definition rejection (c : Call) : option Js.Error :=
  match c with
  | CNewGoogleGenAI _ (Thrown e)
  | CGenerateContent _ _ (Thrown e)
  | CGenerateVideos _ _ (Thrown e)
  | CGetVideosOperation _ _ (Thrown e)
  | CFetch _ (Thrown e)
  | CResponseBlob _ (Thrown e)
  | CHasSelectedApiKey (Thrown e)
  | COpenSelectKey (Thrown e) => Some e
  | _ => None
  end.

(** The errors the calls of a trace were rejected with, in order. *)
Definition rejections (tr : trace) : list Js.Error :=
  flat_map (fun c => match rejection c with
                     | Some e => [e]
                     | None => []
                     end) tr.

(** The errors passed to [console.error], in order. *)
Definition logged (tr : trace) : list Js.Error :=
  flat_map (fun c => match c with
                     | CConsoleError _ e => [e]
                     | _ => []
                     end) tr.

(** The keys the clients of a trace were constructed with. *)
Definition client_keys (tr : trace) : list (option string) :=
  flat_map (fun c => match c with
                     | CNewGoogleGenAI key _ => [key]
                     | _ => []
                     end) tr.

(** The clients the SDK calls of a trace were made on. *)
Definition clients_used (tr : trace) : list Sdk.GoogleGenAI :=
  flat_map (fun c => match c with
                     | CGenerateContent ai _ _
                     | CGenerateVideos ai _ _
                     | CGetVideosOperation ai _ _ => [ai]
                     | _ => []
                     end) tr.

(** The milliseconds waited in a trace, and the number of its polls. *)
Fixpoint total_wait (tr : trace) : Z :=
  match tr with
  | [] => 0
  | CSetTimeout ms :: rest => ms + total_wait rest
  | _ :: rest => total_wait rest
  end.

Fixpoint poll_count (tr : trace) : nat :=
  match tr with
  | [] => 0
  | CGetVideosOperation _ _ _ :: rest => S (poll_count rest)
  | _ :: rest => poll_count rest
  end.

(** The number of calls to [window.aistudio.openSelectKey]. *)
Fixpoint key_prompts (tr : trace) : nat :=
  match tr with
  | [] => 0
  | COpenSelectKey _ :: rest => S (key_prompts rest)
  | _ :: rest => key_prompts rest
  end.

(** The operations received, from [generateVideos] or from a poll, that
    are not done. *)
Fixpoint pending_received (tr : trace) : nat :=
  match tr with
  | [] => 0
  | CGenerateVideos _ _ (Normal op) :: rest
  | CGetVideosOperation _ _ (Normal op) :: rest =>
      (if truthy_flag (Sdk.done op) then 0 else 1) + pending_received rest
  | _ :: rest => pending_received rest
  end.

(** The service function works on one client, made first, from the key
    in the environment at that moment: the execution starts by reading
    the key and constructing a client with it, constructs no other, makes
    every SDK call on the client it got, and ends there when the
    construction fails. *)
Definition on_fresh_client {A : Type} (tr : trace) (r : completion A) : Prop :=
  exists key created rest,
    tr = CEnvApiKey key :: CNewGoogleGenAI key created :: rest /\
    client_keys rest = [] /\
    Forall (fun ai => created = Normal ai) (clients_used rest) /\
    (forall e, created = Thrown e -> rest = [] /\ r = Thrown e).

(** The service function stops at the first call that is rejected and
    rejects with the same error; an error it ends on is that of its last
    call or its [own]. *)
Definition stops_at_rejection {A : Type} (own : string) (tr : trace) (r : completion A)
  : Prop :=
  (forall pre c post e,
      tr = (pre ++ c :: post)%list -> rejection c = Some e ->
      post = [] /\ r = Thrown e) /\
  (forall e,
      r = Thrown e ->
      (exists pre c, tr = (pre ++ [c])%list /\ rejection c = Some e) \/
      e = mkError own).

(** No call of the trace is rejected before its last, and a rejection of
    the last is the outcome. *)
Fixpoint unrejected (A : Type) (tr : trace) (r : completion A) : Prop :=
  match tr with
  | [] => True
  | c :: post =>
      match rejection c with
      | Some e => post = [] /\ r = Thrown e
      | None => True
      end /\ unrejected A post r
  end.

(** ** The states a run leaves *)

(** The state a run handler is in when it enters its [try] block. *)
Definition run_started (message : string) (st : App.State) : App.State :=
  App.with_error None (App.with_loadingMessage message (App.with_loading true st)).

(** The state after a run that succeeded with [url]. *)
Definition run_succeeded
    (message url : string) (type : AssetType) (assetPrompt id : string) (timestamp : Z)
    (st : App.State) : App.State :=
  App.with_loading false
    (App.with_activeTool HISTORY
       (App.update_assets
          (fun prev =>
             {| asset_id := id; asset_url := url; asset_type := type;
                asset_prompt := assetPrompt; asset_timestamp := timestamp |} :: prev)
          (run_started message st))).

(** The state after a run whose service call threw [err]. *)
Definition run_failed (message fallback : string) (err : Js.Error) (st : App.State)
  : App.State :=
  App.with_loading false
    (App.with_error (Some (or_else (Js.message err) fallback)) (run_started message st)).

(** The text that makes a run handler ask for a key again. *)
Definition not_found_text : string := "Requested entity was not found".

(** The handler [h] goes through with its run on [st] whatever the key
    check resolved to: after any execution of the key check and of the
    service it ends as follows.  If the service returned a URL, it draws an
    id and a time stamp and leaves [run_succeeded]; if the service threw,
    it leaves [run_failed], having asked for a key again when the message
    of the error includes [not_found_text], and then it ends as that
    request did. *)
Definition goes_through_with
    (h : App.handler unit) (label : string) (service : async string)
    (type : AssetType) (assetPrompt fallback : string) (st : App.State) : Prop :=
  forall tr_key ok tr_service,
    runs App.checkApiKey tr_key (Normal ok) ->
    (forall url id timestamp,
        runs service tr_service (Normal url) ->
        runs (h st)
             (tr_key ++ tr_service ++ [CRandomId id; CDateNow timestamp])%list
             (run_succeeded label url type assetPrompt id timestamp st, Normal tt)) /\
    (forall err,
        runs service tr_service (Thrown err) ->
        includes not_found_text (message err) = false ->
        runs (h st) (tr_key ++ tr_service)%list
             (run_failed label fallback err st, Normal tt)) /\
    (forall err c,
        runs service tr_service (Thrown err) ->
        includes not_found_text (message err) = true ->
        runs (h st) (tr_key ++ tr_service ++ [COpenSelectKey c])%list
             (run_failed label fallback err st, c)).

(** How an execution of a run handler past its guard ends: after the key
    check and the service call, it asks for a key again exactly when the
    service threw an error whose message contains [not_found_text], and
    it rejects only if that request is rejected; a failure of the service
    itself is never passed on. *)
Definition ends_quietly (service : async string) (tr : trace) (c : completion unit)
  : Prop :=
  exists tr_key ok tr_service result tr_rest,
    tr = (tr_key ++ tr_service ++ tr_rest)%list /\
    runs App.checkApiKey tr_key (Normal ok) /\
    runs service tr_service result /\
    match result with
    | Normal _ => c = Normal tt /\ key_prompts tr_rest = 0
    | Thrown err =>
        ((exists pre post, message err = pre ++ not_found_text ++ post) /\
         tr_rest = [COpenSelectKey c]) \/
        (~ (exists pre post, message err = pre ++ not_found_text ++ post) /\
         tr_rest = [] /\ c = Normal tt)
    end.

(** ** The component as a transition system

    The state changes the component can make: the callbacks of the JSX
    (the navigation, the prompt fields, the size and ratio buttons, the
    uploads, which end in [setter(reader.result)]) and the finished
    executions of the three run handlers. *)

Module Ui.

Definition with_prompt (v : string) (st : App.State) : App.State :=
  App.mkState (App.activeTool st) (App.loading st) (App.loadingMessage st) (App.error st)
              (App.assets st) v (App.size st) (App.aspectRatio st) (App.baseImage st)
              (App.colorImage st) (App.animateImage st).

Definition with_size (v : ImageSize) (st : App.State) : App.State :=
  App.mkState (App.activeTool st) (App.loading st) (App.loadingMessage st) (App.error st)
              (App.assets st) (App.prompt st) v (App.aspectRatio st) (App.baseImage st)
              (App.colorImage st) (App.animateImage st).

Definition with_aspectRatio (v : AspectRatio) (st : App.State) : App.State :=
  App.mkState (App.activeTool st) (App.loading st) (App.loadingMessage st) (App.error st)
              (App.assets st) (App.prompt st) (App.size st) v (App.baseImage st)
              (App.colorImage st) (App.animateImage st).

Definition with_baseImage (v : option string) (st : App.State) : App.State :=
  App.mkState (App.activeTool st) (App.loading st) (App.loadingMessage st) (App.error st)
              (App.assets st) (App.prompt st) (App.size st) (App.aspectRatio st) v
              (App.colorImage st) (App.animateImage st).

Definition with_colorImage (v : option string) (st : App.State) : App.State :=
  App.mkState (App.activeTool st) (App.loading st) (App.loadingMessage st) (App.error st)
              (App.assets st) (App.prompt st) (App.size st) (App.aspectRatio st)
              (App.baseImage st) v (App.animateImage st).

Definition with_animateImage (v : option string) (st : App.State) : App.State :=
  App.mkState (App.activeTool st) (App.loading st) (App.loadingMessage st) (App.error st)
              (App.assets st) (App.prompt st) (App.size st) (App.aspectRatio st)
              (App.baseImage st) (App.colorImage st) v.

(** The [useState] initial values. *)
Definition mounted : App.State :=
  {| App.activeTool := GENERATE;
     App.loading := false;
     App.loadingMessage := "";
     App.error := None;
     App.assets := [];
     App.prompt := "";
     App.size := Size1K;
     App.aspectRatio := AR_1_1;
     App.baseImage := None;
     App.colorImage := None;
     App.animateImage := None |}.

Inductive step : App.State -> App.State -> Prop :=
| navigate tool st : step st (App.with_activeTool tool st)
| type_prompt v st : step st (with_prompt v st)
| pick_size v st : step st (with_size v st)
| pick_ratio v st : step st (with_aspectRatio v st)
| upload_base v st : step st (with_baseImage v st)
| upload_color v st : step st (with_colorImage v st)
| upload_animate v st : step st (with_animateImage v st)
| generation st tr st' c :
    runs (App.runGeneration st) tr (st', c) -> step st st'
| editing st tr st' c :
    runs (App.runEditing st) tr (st', c) -> step st st'
| animation st tr st' c :
    runs (App.runAnimation st) tr (st', c) -> step st st'.

(** The states a session can be in between two of its steps. *)
Inductive reachable : App.State -> Prop :=
| reachable_mounted : reachable mounted
| reachable_step st st' : reachable st -> step st st' -> reachable st'.

End Ui.

(** ** What a run leaves alone *)

(** A finished execution of one of the three run handlers. *)
Definition a_run (st : App.State) (tr : trace) (st' : App.State) (c : completion unit)
  : Prop :=
  runs (App.runGeneration st) tr (st', c) \/
  runs (App.runEditing st) tr (st', c) \/
  runs (App.runAnimation st) tr (st', c).

(** The form is as it was: prompt, size, ratio and the uploaded images. *)
Definition keeps_inputs (st st' : App.State) : Prop :=
  App.prompt st' = App.prompt st /\
  App.size st' = App.size st /\
  App.aspectRatio st' = App.aspectRatio st /\
  App.baseImage st' = App.baseImage st /\
  App.colorImage st' = App.colorImage st /\
  App.animateImage st' = App.animateImage st.

(** The assets and the tool are as they were, or one asset was put in
    front of the assets and the tool is HISTORY. *)
Definition grows_history (st st' : App.State) : Prop :=
  (App.assets st' = App.assets st /\ App.activeTool st' = App.activeTool st) \/
  (exists asset,
      App.assets st' = asset :: App.assets st /\ App.activeTool st' = HISTORY).

(** The calls to the model in a trace: at most one, none of them to
    [generateVideos], and no wait and no poll. *)
Definition image_calls_only (tr : trace) : Prop :=
  length (content_requests tr) <= 1 /\
  video_requests tr = [] /\ poll_count tr = 0 /\ total_wait tr = 0%Z.

(** At most one call to [generateVideos], none to [generateContent]. *)
Definition video_calls_only (tr : trace) : Prop :=
  length (video_requests tr) <= 1 /\ content_requests tr = [].

(** The trace is empty or starts with the question to AI Studio whether
    a key is selected, asked once. *)
Fixpoint key_questions (tr : trace) : nat :=
  match tr with
  | [] => 0
  | CHasSelectedApiKey _ :: rest => S (key_questions rest)
  | _ :: rest => key_questions rest
  end.

Definition asks_for_key_first (tr : trace) : Prop :=
  tr = [] \/
  exists answer rest, tr = CHasSelectedApiKey answer :: rest /\ key_questions rest = 0.

(** An asset as the run handlers store it: its prompt is not empty, and
    the URL of an image is a PNG data URL. *)
Definition as_stored (asset : GeneratedAsset) : Prop :=
  asset_prompt asset <> "" /\
  (asset_type asset = image ->
   exists data, asset_url asset = "data:image/png;base64," ++ data).

(** ** Executions: general facts *)

Lemma runs_unfold {R} (t : itree worldE R) tr r : runs t tr r <-> runs_head t tr r.
Proof.
  unfold runs_head; split.
  - intros H; destruct H as [t r H | t u tr r H H' | t X e k x tr r H H'];
      rewrite H; eauto.
  - destruct (observe t) eqn:Ht.
    + intros [-> ->]. now apply runs_ret.
    + intros H. eapply runs_tau; eauto.
    + intros (x & tr' & -> & H). eapply runs_vis; eauto.
Qed.

(** Only the head of a tree matters. *)
Lemma runs_observe {R} (t t' : itree worldE R) tr r :
  observe t = observe t' -> runs t tr r -> runs t' tr r.
Proof.
  intros E H. apply runs_unfold. apply runs_unfold in H.
  unfold runs_head in *. now rewrite <- E.
Qed.

Lemma exec_runs {R} fuel w n (t : itree worldE R) tr r :
  exec fuel w n t = Some (tr, r) -> runs t tr r.
Proof.
  revert n t tr r. induction fuel as [| fuel IH]; intros n t tr r; cbn; [discriminate |].
  destruct (observe t) as [r' | u | X e k] eqn:Ht.
  - intros [= <- <-]. now apply runs_ret.
  - intros H. eapply runs_tau; eauto.
  - destruct (exec fuel w (S n) (k (w n X e))) as [[tr' r'] |] eqn:Hk; [| discriminate].
    intros [= <- <-]. eapply runs_vis; eauto.
Qed.

Lemma answered_inj {X} (e : worldE X) (x y : X) : answered e x = answered e y -> x = y.
Proof.
  destruct e; cbn; intros H; try (now destruct x, y); now injection H.
Qed.

(** Moving a fact about the head [Vis] of a tree along an equation. *)
Lemma VisF_eq_elim {R X1 X2} {e1 : worldE X1} {k1 : X1 -> itree worldE R}
      {e2 : worldE X2} {k2 : X2 -> itree worldE R}
      (P : forall X, worldE X -> (X -> itree worldE R) -> Prop) :
  (VisF e1 k1 : itree' worldE R) = VisF e2 k2 -> P X1 e1 k1 -> P X2 e2 k2.
Proof.
  intros H HP.
  change (match (VisF e2 k2 : itree' worldE R) with
          | VisF e k => P _ e k
          | _ => True
          end).
  now rewrite <- H.
Qed.

Lemma runs_Ret {R} (r r' : R) tr : runs (Ret r) tr r' <-> tr = [] /\ r' = r.
Proof. now rewrite runs_unfold. Qed.

Lemma runs_Tau {R} (t : itree worldE R) tr r : runs (Tau t) tr r <-> runs t tr r.
Proof. now rewrite runs_unfold. Qed.

Lemma runs_Vis {R X} (e : worldE X) (k : X -> itree worldE R) tr r :
  runs (Vis e k) tr r <-> exists x tr', tr = answered e x :: tr' /\ runs (k x) tr' r.
Proof. now rewrite runs_unfold. Qed.

Lemma runs_trigger {X} (e : worldE X) tr (r : X) :
  runs (ITree.trigger e) tr r <-> tr = [answered e r].
Proof.
  unfold ITree.trigger. rewrite runs_Vis. split.
  - intros (x & tr' & -> & H). apply runs_Ret in H as [-> ->]. reflexivity.
  - intros H. exists r, []. split; [exact H | now apply runs_Ret].
Qed.

(** Executions of [t >>= k] are an execution of [t] followed by one of [k]. *)
Lemma runs_bind {T R} (t : itree worldE T) (k : T -> itree worldE R) tr1 x tr2 r :
  runs t tr1 x -> runs (k x) tr2 r -> runs (ITree.bind t k) (tr1 ++ tr2)%list r.
Proof.
  intros Ht Hk. induction Ht as [t x H | t u tr x H _ IH | t X e h a tr x H _ IH].
  - eapply runs_observe; [| exact Hk].
    rewrite observe_bind, H. reflexivity.
  - apply runs_unfold. unfold runs_head. rewrite observe_bind, H. apply IH, Hk.
  - apply runs_unfold. unfold runs_head. rewrite observe_bind, H.
    exists a, (tr ++ tr2)%list. split; [reflexivity | apply IH, Hk].
Qed.

Lemma runs_bind_inv {T R} (t : itree worldE T) (k : T -> itree worldE R) tr r :
  runs (ITree.bind t k) tr r ->
  exists tr1 x tr2, tr = (tr1 ++ tr2)%list /\ runs t tr1 x /\ runs (k x) tr2 r.
Proof.
  intros H. remember (ITree.bind t k) as u eqn:Eu. revert t Eu.
  induction H as [u r H | u v tr r H Hv IH | u X e h a tr r H Hv IH]; intros t ->.
  - rewrite observe_bind in H.
    destruct (observe t) as [x | t' | Y e' h'] eqn:Et; cbn in H; try discriminate.
    exists [], x, []. repeat split.
    + now apply runs_ret.
    + now apply runs_ret.
  - rewrite observe_bind in H.
    destruct (observe t) as [x | t' | Y e' h'] eqn:Et; cbn in H; try discriminate.
    + exists [], x, tr. repeat split.
      * now apply runs_ret.
      * eapply runs_tau; eauto.
    + injection H as <-.
      destruct (IH t' eq_refl) as (tr1 & x & tr2 & -> & H1 & H2).
      exists tr1, x, tr2. repeat split; auto. eapply runs_tau; eauto.
  - rewrite observe_bind in H.
    destruct (observe t) as [x | t' | Y e' h'] eqn:Et; cbn in H; try discriminate.
    + exists [], x, (answered e a :: tr). repeat split.
      * now apply runs_ret.
      * eapply runs_vis; eauto.
    + revert a Hv IH.
      refine (VisF_eq_elim
                (fun X e h => forall a : X, runs (h a) tr r ->
                   (forall t0, h a = ITree.bind t0 k -> _) -> _) H _).
      intros a _ IH.
      destruct (IH (h' a) eq_refl) as (tr1 & x & tr2 & -> & H1 & H2).
      exists (answered e' a :: tr1), x, tr2. repeat split; auto.
      eapply runs_vis; eauto.
Qed.

(** The answers decide the outcome. *)
Lemma runs_det {R} (t : itree worldE R) tr r r' :
  runs t tr r -> runs t tr r' -> r = r'.
Proof.
  intros H. revert r'.
  induction H as [t r H | t u tr r H _ IH | t X e k x tr r H _ IH]; intros r' H'.
  - apply runs_unfold in H'. unfold runs_head in H'. rewrite H in H'. now destruct H'.
  - apply runs_unfold in H'. unfold runs_head in H'. rewrite H in H'. now apply IH.
  - apply runs_unfold in H'. unfold runs_head in H'. rewrite H in H'.
    destruct H' as (y & tr' & E & H'). injection E as E1 E2. subst tr'.
    apply answered_inj in E1. subst y. now apply IH.
Qed.

(** ** Executions of asynchronous code *)

Lemma runs_await {A B} (t : async A) (k : A -> async B) tr1 a tr2 r :
  runs t tr1 (Normal a) -> runs (k a) tr2 r -> runs (await t k) (tr1 ++ tr2)%list r.
Proof. intros Ht Hk. unfold await. eapply runs_bind; [exact Ht | exact Hk]. Qed.

Lemma runs_await_thrown {A B} (t : async A) (k : A -> async B) tr e :
  runs t tr (Thrown e) -> runs (await t k) tr (Thrown e).
Proof.
  intros Ht. unfold await. rewrite <- (app_nil_r tr).
  eapply runs_bind; [exact Ht |]. now apply runs_Ret.
Qed.

Lemma runs_await_inv {A B} (t : async A) (k : A -> async B) tr r :
  runs (await t k) tr r ->
  (exists e, runs t tr (Thrown e) /\ r = Thrown e) \/
  (exists tr1 a tr2, tr = (tr1 ++ tr2)%list /\ runs t tr1 (Normal a) /\ runs (k a) tr2 r).
Proof.
  unfold await. intros H. apply runs_bind_inv in H as (tr1 & c & tr2 & -> & Ht & Hk).
  destruct c as [a | e].
  - right. now exists tr1, a, tr2.
  - left. apply runs_Ret in Hk as [-> ->]. rewrite app_nil_r. now exists e.
Qed.

Lemma runs_call {A} (e : worldE (completion A)) tr r :
  runs (call e) tr r <-> tr = [answered e r].
Proof. apply runs_trigger. Qed.

Lemma runs_perform {A} (e : worldE A) tr r :
  runs (perform e) tr r <-> exists a, tr = [answered e a] /\ r = Normal a.
Proof.
  unfold perform. split.
  - intros H. apply runs_bind_inv in H as (tr1 & a & tr2 & -> & Ht & Hk).
    apply runs_trigger in Ht. apply runs_Ret in Hk as [-> ->]. subst tr1.
    now exists a.
  - intros (a & -> & ->). change [answered e a] with ([answered e a] ++ [])%list.
    eapply runs_bind; [now apply runs_trigger | now apply runs_Ret].
Qed.

Lemma runs_resolve {A} (a : A) tr r : runs (resolve a) tr r <-> tr = [] /\ r = Normal a.
Proof. apply runs_Ret. Qed.

Lemma runs_throw {A} msg tr (r : completion A) :
  runs (throw msg) tr r <-> tr = [] /\ r = Thrown (mkError msg).
Proof. apply runs_Ret. Qed.

(** Taking an execution of asynchronous code apart, call by call. *)
Ltac run_inv :=
  repeat match goal with
    | H : runs (await _ _) _ _ |- _ =>
        let e := fresh "e" in
        let tr1 := fresh "tr" in
        let tr2 := fresh "tr" in
        let a := fresh "a" in
        let H' := fresh "H" in
        apply runs_await_inv in H;
        destruct H as [(e & H & ->) | (tr1 & a & tr2 & -> & H & H')]
    | H : runs (call _) _ _ |- _ => apply runs_call in H; cbn in H; try subst
    | H : runs (perform _) _ _ |- _ =>
        let a := fresh "a" in
        apply runs_perform in H; cbn in H; destruct H as (a & -> & H); try discriminate H
    | H : runs (resolve _) _ _ |- _ => apply runs_resolve in H; destruct H as [-> H]
    | H : runs (throw _) _ _ |- _ => apply runs_throw in H; destruct H as [-> H]
    | H : runs (Ret _) _ _ |- _ => apply runs_Ret in H; destruct H as [-> H]
    | H : Normal _ = Normal _ |- _ => injection H as H; try subst
    | H : Thrown _ = Thrown _ |- _ => injection H as H; try subst
    | H : Normal _ = Thrown _ |- _ => discriminate H
    | H : Thrown _ = Normal _ |- _ => discriminate H
    | H : [_] = [_] |- _ => injection H as H; try subst
    end.

(** ** Executions of the service *)

Lemma getAI_runs tr r :
  runs GeminiService.getAI tr r <->
  exists key, tr = [CEnvApiKey key; CNewGoogleGenAI key r].
Proof.
  unfold GeminiService.getAI. split.
  - intros H. run_inv. cbn. eauto.
  - intros (key & ->).
    change [CEnvApiKey key; CNewGoogleGenAI key r]
      with ([CEnvApiKey key] ++ [CNewGoogleGenAI key r])%list.
    eapply runs_await.
    + apply runs_perform. now exists key.
    + now apply runs_call.
Qed.

Lemma first_inline_url_find parts :
  GeminiService.first_inline_url parts =
  match find carries_inline parts with
  | Some part =>
      Some ("data:image/png;base64,"
              ++ interpolate (match Sdk.inlineData part with
                              | Some blob => Sdk.data blob
                              | None => None
                              end))
  | None => None
  end.
Proof.
  induction parts as [| part rest IH]; [reflexivity |].
  cbn [GeminiService.first_inline_url find]. unfold carries_inline at 1.
  destruct (Sdk.inlineData part) eqn:E; [now rewrite E | exact IH].
Qed.

Lemma request_image_runs params msg tr r :
  runs (request_image params msg) tr r <->
  exists key,
    (exists e, tr = [CEnvApiKey key; CNewGoogleGenAI key (Thrown e)] /\ r = Thrown e) \/
    (exists ai c,
        tr = (client_calls key ai ++ [CGenerateContent ai params c])%list /\
        r = image_outcome msg c).
Proof.
  unfold request_image. split.
  - intros H. run_inv.
    + apply getAI_runs in H as (key & ->). exists key. left. eauto.
    + apply getAI_runs in H as (key & ->). exists key. right.
      exists a, (Thrown e). split; reflexivity.
    + apply getAI_runs in H as (key & ->). exists key. right.
      exists a, (Normal a0). unfold image_outcome.
      rewrite first_inline_url_find in H1.
      destruct (find carries_inline _); run_inv; subst r; split; reflexivity.
  - intros (key & [(e & -> & ->) | (ai & c & -> & ->)]).
    + apply runs_await_thrown. apply getAI_runs. eauto.
    + eapply runs_await; [apply getAI_runs; exists key; reflexivity |].
      destruct c as [response | e]; cbn.
      * change [CGenerateContent ai params (Normal response)]
          with ([CGenerateContent ai params (Normal response)] ++ [])%list.
        eapply runs_await; [now apply runs_call |].
        rewrite first_inline_url_find.
        destruct (find carries_inline _); [now apply runs_resolve | now apply runs_throw].
      * apply runs_await_thrown. now apply runs_call.
Qed.

Lemma generateImage_runs prompt size aspectRatio tr r :
  runs (GeminiService.generateImage prompt size aspectRatio) tr r <->
  exists key,
    (exists e, tr = [CEnvApiKey key; CNewGoogleGenAI key (Thrown e)] /\ r = Thrown e) \/
    (exists ai c,
        tr = (client_calls key ai
                ++ [CGenerateContent ai
                      (GeminiService.generateImage_params prompt size aspectRatio) c])%list /\
        r = image_outcome "No image data returned from model" c).
Proof. apply request_image_runs. Qed.

Lemma editImage_runs baseImage colorImage prompt tr r :
  runs (GeminiService.editImage baseImage colorImage prompt) tr r <->
  exists key,
    (exists e, tr = [CEnvApiKey key; CNewGoogleGenAI key (Thrown e)] /\ r = Thrown e) \/
    (exists ai c,
        tr = (client_calls key ai
                ++ [CGenerateContent ai
                      (GeminiService.editImage_params baseImage colorImage prompt) c])%list /\
        r = image_outcome "No edited image data returned" c).
Proof. apply request_image_runs. Qed.

(** *** The poll loop *)

Lemma is_done_truthy op : is_done op <-> truthy_flag (Sdk.done op) = true.
Proof.
  unfold is_done. destruct (Sdk.done op) as [[|] |]; cbn; split; congruence.
Qed.

Lemma not_done_truthy op : ~ is_done op <-> truthy_flag (Sdk.done op) = false.
Proof.
  rewrite is_done_truthy. destruct (truthy_flag (Sdk.done op)); split; congruence.
Qed.

(** One turn of the loop. *)
Lemma poll_unfold ai op tr r :
  runs (GeminiService.poll ai op) tr r <->
  if truthy_flag (Sdk.done op)
  then tr = [] /\ r = Normal op
  else exists c tr',
      tr = CSetTimeout 10000 :: CGetVideosOperation ai op c :: tr' /\
      match c with
      | Normal op' => runs (GeminiService.poll ai op') tr' r
      | Thrown e => tr' = [] /\ r = Thrown e
      end.
Proof.
  set (next := fun lr : Sdk.GenerateVideosOperation + completion Sdk.GenerateVideosOperation =>
                 match lr with
                 | inl op' => Tau (GeminiService.poll ai op')
                 | inr r' => Ret r'
                 end).
  assert (Hiter : runs (GeminiService.poll ai op) tr r <->
                  runs (ITree.bind (GeminiService.poll_step ai op) next) tr r).
  { split; apply runs_observe; reflexivity. }
  rewrite Hiter. clear Hiter. unfold GeminiService.poll_step.
  destruct (truthy_flag (Sdk.done op)); cbn [negb].
  - split.
    + intros H. apply runs_bind_inv in H as (tr1 & x & tr2 & -> & H1 & H2).
      apply runs_Ret in H1 as [-> ->]. unfold next in H2. now apply runs_Ret in H2.
    + intros [-> ->]. change (@nil Call) with (@nil Call ++ [])%list.
      eapply runs_bind with (x := inr (Normal op)); [now apply runs_Ret |].
      unfold next. now apply runs_Ret.
  - split.
    + intros H. apply runs_bind_inv in H as (tr1 & x & tr2 & -> & H1 & H2).
      apply runs_bind_inv in H1 as (tr3 & [] & tr4 & -> & H3 & H4).
      apply runs_trigger in H3. subst tr3.
      apply runs_bind_inv in H4 as (tr5 & c & tr6 & -> & H5 & H6).
      apply runs_trigger in H5. subst tr5.
      exists c, tr2. destruct c as [op' | e].
      * apply runs_Ret in H6 as [-> ->]. split; [reflexivity |].
        unfold next in H2. exact (proj1 (runs_Tau _ _ _) H2).
      * apply runs_Ret in H6 as [-> ->]. split; [reflexivity |].
        unfold next in H2. now apply runs_Ret in H2.
    + intros (c & tr' & -> & H).
      change (CSetTimeout 10000 :: CGetVideosOperation ai op c :: tr')
        with (([CSetTimeout 10000] ++ [CGetVideosOperation ai op c] ++ []) ++ tr')%list.
      destruct c as [op' | e].
      * eapply runs_bind with (x := inl op'); [| unfold next; now apply runs_Tau].
        eapply runs_bind with (x := tt); [now apply (runs_trigger (SetTimeout 10000)) |].
        eapply runs_bind; [now apply runs_trigger | now apply runs_Ret].
      * destruct H as [-> ->].
        eapply runs_bind with (x := inr (Thrown e)); [| unfold next; now apply runs_Ret].
        eapply runs_bind with (x := tt); [now apply (runs_trigger (SetTimeout 10000)) |].
        eapply runs_bind; [now apply runs_trigger | now apply runs_Ret].
Qed.

Lemma last_cons {A} (a d : A) l : last (a :: l) d = last l a.
Proof.
  revert a d. induction l as [| b l IH]; intros a d; [reflexivity |].
  change (last (a :: b :: l) d) with (last (b :: l) d). now rewrite !IH.
Qed.

Lemma removelast_cons2 {A} (a b : A) l :
  removelast (a :: b :: l) = a :: removelast (b :: l).
Proof. reflexivity. Qed.

(** Every execution of the loop: it polls, ten seconds apart, the operations
    that are not done, and stops on the first that is done, or on the first
    poll that rejects. *)
Lemma poll_runs ai op tr r :
  runs (GeminiService.poll ai op) tr r <->
  exists later,
    Forall (fun o => ~ is_done o) (removelast (op :: later)) /\
    ((is_done (last later op) /\
      tr = polls ai op later /\ r = Normal (last later op)) \/
     (~ is_done (last later op) /\
      exists e,
        tr = (polls ai op later
                ++ [CSetTimeout 10000;
                    CGetVideosOperation ai (last later op) (Thrown e)])%list /\
        r = Thrown e)).
Proof.
  split.
  - remember (length tr) as n eqn:En. revert op tr En.
    induction n as [n IH] using lt_wf_ind. intros op tr -> H.
    apply poll_unfold in H.
    destruct (truthy_flag (Sdk.done op)) eqn:Hd.
    + destruct H as [-> ->]. exists []. split; [constructor |].
      left. split; [now apply is_done_truthy | now split].
    + destruct H as (c & tr' & -> & H). destruct c as [op' | e].
      * destruct (IH (length tr') ltac:(cbn; lia) op' tr' eq_refl H)
          as (later & Hall & Hend).
        exists (op' :: later). rewrite last_cons, removelast_cons2. split.
        { constructor; [now apply not_done_truthy | exact Hall]. }
        destruct Hend as [(Hdone & -> & ->) | (Hnot & e & -> & ->)].
        -- left. repeat split; auto.
        -- right. split; [exact Hnot |]. exists e. split; reflexivity.
      * destruct H as [-> ->]. exists []. split; [constructor |].
        right. split; [now apply not_done_truthy |]. exists e. now split.
  - intros (later & Hall & Hend). revert op tr r Hall Hend.
    induction later as [| op' later IH]; intros op tr r Hall Hend; apply poll_unfold.
    + cbn in Hend. destruct Hend as [(Hdone & -> & ->) | (Hnot & e & -> & ->)].
      * apply is_done_truthy in Hdone. now rewrite Hdone.
      * apply not_done_truthy in Hnot. rewrite Hnot.
        exists (Thrown e), []. now split.
    + rewrite removelast_cons2 in Hall. inversion Hall as [| ? ? Hop Hall']; subst.
      apply not_done_truthy in Hop. rewrite Hop.
      rewrite last_cons in Hend.
      destruct Hend as [(Hdone & -> & ->) | (Hnot & e & -> & ->)].
      * exists (Normal op'), (polls ai op' later). split; [reflexivity |].
        apply IH; [exact Hall' |]. left. now repeat split.
      * exists (Normal op'),
          (polls ai op' later
             ++ [CSetTimeout 10000; CGetVideosOperation ai (last later op') (Thrown e)])%list.
        split; [reflexivity |].
        apply IH; [exact Hall' |]. right. split; [exact Hnot |]. now exists e.
Qed.

(** *** After the loop, and the whole of [animateImage] *)

Lemma download_runs op tr r :
  runs (GeminiService.download op) tr r <->
  if truthy_opt (GeminiService.downloadLink op)
  then exists key fetched rest,
      tr = CEnvApiKey key
             :: CFetch (interpolate (GeminiService.downloadLink op)
                          ++ "&key=" ++ interpolate key) fetched
             :: rest /\
      match fetched with
      | Thrown e => rest = [] /\ r = Thrown e
      | Normal videoResponse =>
          exists blobbed rest',
          rest = CResponseBlob videoResponse blobbed :: rest' /\
          match blobbed with
          | Thrown e => rest' = [] /\ r = Thrown e
          | Normal blob =>
              exists url, rest' = [CCreateObjectURL blob url] /\ r = Normal url
          end
      end
  else tr = [] /\ r = Thrown (mkError "Video generation failed").
Proof.
  unfold GeminiService.download.
  destruct (truthy_opt (GeminiService.downloadLink op)); cbn [negb].
  - split.
    + intros H. run_inv; cbn [app].
      * eexists _, (Thrown _), []. now split.
      * eexists _, (Normal _), _. split; [reflexivity |].
        eexists (Thrown _), []. now split.
      * eexists _, (Normal _), _. split; [reflexivity |].
        eexists (Normal _), _. split; [reflexivity |].
        eexists. now split.
    + intros (key & fetched & rest & -> & H).
      match goal with
      | |- runs _ (?a :: ?l) _ => change (a :: l) with ([a] ++ l)%list
      end.
      eapply runs_await; [apply runs_perform; now exists key |].
      destruct fetched as [videoResponse | e].
      * destruct H as (blobbed & rest' & -> & H).
        match goal with
        | |- runs _ (?a :: ?l) _ => change (a :: l) with ([a] ++ l)%list
        end.
        eapply runs_await; [now apply runs_call |].
        destruct blobbed as [blob | e].
        -- destruct H as (url & -> & ->).
           match goal with
           | |- runs _ (?a :: ?l) _ => change (a :: l) with ([a] ++ l)%list
           end.
           eapply runs_await; [now apply runs_call |].
           apply runs_perform. now exists url.
        -- destruct H as [-> ->]. apply runs_await_thrown. now apply runs_call.
      * destruct H as [-> ->]. apply runs_await_thrown. now apply runs_call.
  - apply runs_throw.
Qed.

Lemma animateImage_runs imageBase64 prompt aspectRatio tr r :
  runs (GeminiService.animateImage imageBase64 prompt aspectRatio) tr r <->
  exists key created tr1,
    tr = CEnvApiKey key :: CNewGoogleGenAI key created :: tr1 /\
    match created with
    | Thrown e => tr1 = [] /\ r = Thrown e
    | Normal ai =>
        exists started tr2,
        tr1 = CGenerateVideos ai
                (GeminiService.animateImage_params imageBase64 prompt aspectRatio) started
                :: tr2 /\
        match started with
        | Thrown e => tr2 = [] /\ r = Thrown e
        | Normal op =>
            exists tr_poll polled tr_end,
            tr2 = (tr_poll ++ tr_end)%list /\
            runs (GeminiService.poll ai op) tr_poll polled /\
            match polled with
            | Thrown e => tr_end = [] /\ r = Thrown e
            | Normal op_end => runs (GeminiService.download op_end) tr_end r
            end
        end
    end.
Proof.
  unfold GeminiService.animateImage. split.
  - intros H. run_inv; apply getAI_runs in H as (key & ->); cbn [app].
    + exists key, (Thrown e), []. now split.
    + eexists key, (Normal _), _. split; [reflexivity |].
      eexists (Thrown _), []. now split.
    + eexists key, (Normal _), _. split; [reflexivity |].
      eexists (Normal _), _. split; [reflexivity |].
      eexists _, (Thrown _), []. rewrite app_nil_r. split; [reflexivity |]. split; [eassumption |].
      now split.
    + eexists key, (Normal _), _. split; [reflexivity |].
      eexists (Normal _), _. split; [reflexivity |].
      eexists _, (Normal _), _. split; [reflexivity |]. split; eassumption.
  - intros (key & created & tr1 & -> & H).
    match goal with
    | |- runs _ (?a :: ?b :: ?l) _ => change (a :: b :: l) with ([a; b] ++ l)%list
    end.
    destruct created as [ai | e].
    + destruct H as (started & tr2 & -> & H).
      eapply runs_await; [apply getAI_runs; now exists key |].
      match goal with
      | |- runs _ (?a :: ?l) _ => change (a :: l) with ([a] ++ l)%list
      end.
      destruct started as [op | e].
      * destruct H as (tr_poll & polled & tr_end & -> & Hp & H).
        eapply runs_await; [now apply runs_call |].
        destruct polled as [op_end | e].
        -- eapply runs_await; eauto.
        -- destruct H as [-> ->]. rewrite app_nil_r. now apply runs_await_thrown.
      * destruct H as [-> ->]. apply runs_await_thrown. now apply runs_call.
    + destruct H as [-> ->]. apply runs_await_thrown. apply getAI_runs. now exists key.
Qed.

(** ** The requests the service sends *)



Lemma video_requests_app tr1 tr2 :
  video_requests (tr1 ++ tr2)%list = (video_requests tr1 ++ video_requests tr2)%list.
Proof. apply flat_map_app. Qed.

Lemma video_requests_polls ai op later : video_requests (polls ai op later) = [].
Proof.
  revert op. induction later as [| op' later IH]; intros op; [reflexivity |].
  cbn. apply IH.
Qed.

Lemma video_requests_poll ai op tr r :
  runs (GeminiService.poll ai op) tr r -> video_requests tr = [].
Proof.
  intros H. apply poll_runs in H as (later & _ & [(_ & -> & _) | (_ & e & -> & _)]).
  - apply video_requests_polls.
  - rewrite video_requests_app, video_requests_polls. reflexivity.
Qed.

Lemma video_requests_download op tr r :
  runs (GeminiService.download op) tr r -> video_requests tr = [].
Proof.
  intros H. apply download_runs in H.
  destruct (truthy_opt (GeminiService.downloadLink op)).
  - destruct H as (key & fetched & rest & -> & H). destruct fetched as [resp | e].
    + destruct H as (blobbed & rest' & -> & H). destruct blobbed as [blob | e].
      * destruct H as (url & -> & _). reflexivity.
      * destruct H as [-> _]. reflexivity.
    + destruct H as [-> _]. reflexivity.
  - destruct H as [-> _]. reflexivity.
Qed.

Lemma animateImage_requests imageBase64 prompt aspectRatio tr r :
  runs (GeminiService.animateImage imageBase64 prompt aspectRatio) tr r ->
  (exists key e, tr = [CEnvApiKey key; CNewGoogleGenAI key (Thrown e)]) \/
  video_requests tr = [GeminiService.animateImage_params imageBase64 prompt aspectRatio].
Proof.
  intros H. apply animateImage_runs in H as (key & created & tr1 & -> & H).
  destruct created as [ai | e].
  - right. destruct H as (started & tr2 & -> & H). cbn. f_equal.
    destruct started as [op | e].
    + destruct H as (tr_poll & polled & tr_end & -> & Hp & H).
      rewrite video_requests_app. rewrite (video_requests_poll _ _ _ _ Hp).
      destruct polled as [op_end | e].
      * apply (video_requests_download _ _ _ H).
      * destruct H as [-> _]. reflexivity.
    + destruct H as [-> _]. reflexivity.
  - left. destruct H as [-> _]. eauto.
Qed.






(** *** Data URLs *)

Lemma split_nonempty c s : split c s <> [].
Proof.
  destruct s as [| a s]; cbn; [discriminate |].
  destruct (Ascii.eqb a c); [discriminate |].
  destruct (split c s); discriminate.
Qed.

Lemma split_comma_free s : comma_free s = true -> split "," s = [s].
Proof.
  induction s as [| a s IH]; cbn; [reflexivity |].
  intros H. apply andb_prop in H as [Ha Hs].
  apply negb_true_iff in Ha. rewrite Ha, (IH Hs). reflexivity.
Qed.

(** A prefix without a comma stays in front of the first segment. *)
Lemma split_prefix a rest :
  comma_free a = true ->
  split "," (a ++ rest) =
  match split "," rest with
  | seg :: segs => (a ++ seg) :: segs
  | [] => [a]
  end.
Proof.
  induction a as [| x a IH]; cbn.
  - intros _. destruct (split "," rest) eqn:E; [now apply split_nonempty in E | reflexivity].
  - intros H. apply andb_prop in H as [Hx Ha].
    apply negb_true_iff in Hx. rewrite Hx, (IH Ha).
    destruct (split "," rest); reflexivity.
Qed.

Lemma after_comma_data_url mime payload :
  comma_free mime = true -> comma_free payload = true ->
  GeminiService.after_comma (data_url mime payload) = Some payload.
Proof.
  intros Hm Hp. unfold GeminiService.after_comma, data_url.
  rewrite (split_prefix "data:" _ eq_refl), (split_prefix mime _ Hm).
  cbn. rewrite (split_comma_free _ Hp). reflexivity.
Qed.



(** ** The answer of the model *)

(** What the code reads of a response is the content of its first
    candidate. *)
Lemma response_parts_first_candidate response :
  GeminiService.response_parts response = first_candidate_parts response.
Proof.
  unfold GeminiService.response_parts, first_candidate_parts, candidates_of, parts_of.
  destruct (Sdk.candidates response) as [[| candidate rest] |]; reflexivity.
Qed.











(** ** The poll discipline of [animateImage] *)

Lemma held_operation_app held tr1 tr2 :
  held_operation held (tr1 ++ tr2)%list = held_operation (held_operation held tr1) tr2.
Proof.
  revert held. induction tr1 as [| c tr1 IH]; intros held; [reflexivity |].
  destruct c; cbn; try apply IH;
    match goal with
    | |- context [match ?a with Normal _ => _ | Thrown _ => _ end] =>
        destruct a; apply IH
    end.
Qed.

Lemma last_call_cons (c : Call) (pre : trace) before :
  last (map Some (c :: pre)) before = last (map Some pre) (Some c).
Proof.
  change (map Some (c :: pre)) with (Some c :: map Some pre). apply last_cons.
Qed.

(** A trace allowed as a whole is allowed at each of its calls. *)
Lemma all_allowed_at held before tr :
  all_allowed held before tr ->
  forall pre c post,
    tr = (pre ++ c :: post)%list ->
    call_allowed (held_operation held pre) (last (map Some pre) before) c post.
Proof.
  intros H pre. revert held before tr H.
  induction pre as [| d pre IH]; intros held before tr H c post ->.
  - exact (proj1 H).
  - destruct H as [_ H]. rewrite last_call_cons.
    change (d :: pre) with ([d] ++ pre)%list. rewrite held_operation_app.
    eapply IH; [exact H | reflexivity].
Qed.

(** The calls made after the loop are allowed once the operation is done. *)
Lemma download_allowed op before tr r :
  runs (GeminiService.download op) tr r -> is_done op ->
  all_allowed (Some op) before tr.
Proof.
  intros H Hdone. apply download_runs in H.
  destruct (truthy_opt (GeminiService.downloadLink op)).
  - destruct H as (key & fetched & rest & -> & H). cbn.
    split; [exact I |]. split; [now exists op |].
    destruct fetched as [resp | e].
    + destruct H as (blobbed & rest' & -> & H). cbn. split; [exact I |].
      destruct blobbed as [blob | e].
      * destruct H as (url & -> & _). cbn. auto.
      * destruct H as [-> _]. exact I.
    + destruct H as [-> _]. exact I.
  - destruct H as [-> _]. exact I.
Qed.

(** The loop starts with a wait and a poll unless the operation is done. *)
Lemma polls_start ai op later tail :
  ~ is_done op ->
  (~ is_done (last later op) ->
   exists x post',
     tail = CSetTimeout 10000 :: CGetVideosOperation ai (last later op) x :: post') ->
  exists x post',
    (polls ai op later ++ tail)%list
    = CSetTimeout 10000 :: CGetVideosOperation ai op x :: post'.
Proof.
  intros Hop Htail. destruct later as [| op' later].
  - cbn in *. now apply Htail.
  - cbn. eauto.
Qed.

Lemma polls_allowed ai later :
  forall op before tail,
    Forall (fun o => ~ is_done o) (removelast (op :: later)) ->
    (~ is_done (last later op) ->
     exists x post',
       tail = CSetTimeout 10000 :: CGetVideosOperation ai (last later op) x :: post') ->
    (forall b, all_allowed (Some (last later op)) b tail) ->
    all_allowed (Some op) before (polls ai op later ++ tail)%list.
Proof.
  induction later as [| op' later IH]; intros op before tail Hall Hnext Htail.
  - apply Htail.
  - rewrite removelast_cons2 in Hall. inversion Hall as [| ? ? Hop Hall']; subst.
    rewrite last_cons in Hnext, Htail.
    cbn [polls app all_allowed]. split; [| split].
    + cbn. split; [reflexivity |]. exists op. repeat split; eauto.
    + cbn. repeat split; auto.
      intros Hop'. now apply polls_start.
    + cbn [held_operation]. now apply IH.
Qed.

(** What follows the loop when it ends on a poll that rejects. *)
Lemma rejected_poll_allowed ai op e b :
  ~ is_done op ->
  all_allowed (Some op) b
    [CSetTimeout 10000; CGetVideosOperation ai op (Thrown e)].
Proof.
  intros Hop. cbn. repeat split; auto. exists op. repeat split; eauto.
Qed.

Lemma animateImage_allowed imageBase64 prompt aspectRatio tr r :
  runs (GeminiService.animateImage imageBase64 prompt aspectRatio) tr r ->
  all_allowed None None tr.
Proof.
  intros H. apply animateImage_runs in H as (key & created & tr1 & -> & H).
  cbn [all_allowed]. split; [exact I |]. split; [exact I |].
  destruct created as [ai | e]; [| destruct H as [-> _]; exact I].
  destruct H as (started & tr2 & -> & H).
  destruct started as [op | e]; [| destruct H as [-> _]; cbn; auto].
  destruct H as (tr_poll & polled & tr_end & -> & Hp & H).
  apply poll_runs in Hp as (later & Hall & Hend).
  destruct Hend as [(Hdone & -> & ->) | (Hnot & e & -> & ->)].
  - cbn [all_allowed held_operation]. split.
    + cbn. intros Hop. apply polls_start; [exact Hop | contradiction].
    + apply polls_allowed; [exact Hall | contradiction |].
      intros b. eapply download_allowed; eauto.
  - destruct H as [-> _]. rewrite app_nil_r.
    cbn [all_allowed held_operation]. split.
    + cbn. intros Hop. apply polls_start; [exact Hop | eauto].
    + apply polls_allowed; [exact Hall | eauto |].
      intros b. now apply rejected_poll_allowed.
Qed.

(** *** Executions under way *)

Lemma begins_unfold {R} (t : itree worldE R) tr :
  begins t tr <->
  tr = [] \/
  match observe t with
  | RetF _ => False
  | TauF u => begins u tr
  | VisF e k => exists x tr', tr = answered e x :: tr' /\ begins (k x) tr'
  end.
Proof.
  split.
  - intros H. destruct H as [t | t u tr H H' | t X e k x tr H H'].
    + now left.
    + right. now rewrite H.
    + right. rewrite H. eauto.
  - intros [-> | H]; [apply begins_here |].
    destruct (observe t) eqn:Ht.
    + contradiction.
    + eapply begins_tau; eauto.
    + destruct H as (x & tr' & -> & H). eapply begins_vis; eauto.
Qed.

Lemma begins_observe {R} (t t' : itree worldE R) tr :
  observe t = observe t' -> begins t tr -> begins t' tr.
Proof.
  intros E H. apply begins_unfold. apply begins_unfold in H. now rewrite <- E.
Qed.

Lemma begins_Ret {R} (r : R) tr : begins (Ret r : itree worldE R) tr -> tr = [].
Proof. intros H. apply begins_unfold in H as [-> | []]. reflexivity. Qed.

Lemma begins_bind_inv {T R} (t : itree worldE T) (k : T -> itree worldE R) tr :
  begins (ITree.bind t k) tr ->
  begins t tr \/
  exists tr1 x tr2, tr = (tr1 ++ tr2)%list /\ runs t tr1 x /\ begins (k x) tr2.
Proof.
  intros H. remember (ITree.bind t k) as u eqn:Eu. revert t Eu.
  induction H as [u | u v tr H Hv IH | u X e h a tr H Hv IH]; intros t ->.
  - left. apply begins_here.
  - rewrite observe_bind in H.
    destruct (observe t) as [x | t' | Y e' h'] eqn:Et; cbn in H; try discriminate.
    + right. exists [], x, tr. repeat split.
      * now apply runs_ret.
      * eapply begins_tau; eauto.
    + injection H as <-.
      destruct (IH t' eq_refl) as [Hl | (tr1 & x & tr2 & -> & H1 & H2)].
      * left. eapply begins_tau; eauto.
      * right. exists tr1, x, tr2. repeat split; auto. eapply runs_tau; eauto.
  - rewrite observe_bind in H.
    destruct (observe t) as [x | t' | Y e' h'] eqn:Et; cbn in H; try discriminate.
    + right. exists [], x, (answered e a :: tr). repeat split.
      * now apply runs_ret.
      * eapply begins_vis; eauto.
    + revert a Hv IH.
      refine (VisF_eq_elim
                (fun X e h => forall a : X, begins (h a) tr ->
                   (forall t0, h a = ITree.bind t0 k -> _) -> _) H _).
      intros a _ IH.
      destruct (IH (h' a) eq_refl) as [Hl | (tr1 & x & tr2 & -> & H1 & H2)].
      * left. eapply begins_vis; eauto.
      * right. exists (answered e' a :: tr1), x, tr2. repeat split; auto.
        eapply runs_vis; eauto.
Qed.

Lemma finishable_observe {R} (t t' : itree worldE R) :
  observe t = observe t' -> finishable t -> finishable t'.
Proof.
  intros E Ht pre H. apply (begins_observe t' t) in H; [| now symmetry].
  destruct (Ht pre H) as (post & r & Hr). exists post, r.
  now apply (runs_observe t t').
Qed.

Lemma finishable_Ret {R} (r : R) : finishable (Ret r : itree worldE R).
Proof.
  intros pre H. apply begins_Ret in H as ->. exists [], r. now apply runs_Ret.
Qed.

Lemma finishable_trigger {X} (e : worldE X) : finishable (ITree.trigger e).
Proof.
  intros pre H. unfold ITree.trigger in *. apply begins_unfold in H as [-> | H].
  - exists [answered e (rejecting e)], (rejecting e). now apply runs_trigger.
  - cbn in H. destruct H as (x & tr' & -> & H). apply begins_Ret in H as ->.
    exists [], x. now apply runs_trigger.
Qed.

Lemma finishable_bind {T R} (t : itree worldE T) (k : T -> itree worldE R) :
  finishable t -> (forall x, finishable (k x)) -> finishable (ITree.bind t k).
Proof.
  intros Ht Hk pre H.
  apply begins_bind_inv in H as [H | (tr1 & x & tr2 & -> & H1 & H2)].
  - destruct (Ht pre H) as (post1 & x & H1).
    destruct (Hk x [] (begins_here _)) as (post2 & r & H2).
    exists (post1 ++ post2)%list, r. rewrite app_assoc.
    eapply runs_bind; eauto.
  - destruct (Hk x tr2 H2) as (post & r & Hr).
    exists post, r. rewrite <- app_assoc. eapply runs_bind; eauto.
Qed.

Lemma finishable_await {A B} (t : async A) (k : A -> async B) :
  finishable t -> (forall a, finishable (k a)) -> finishable (await t k).
Proof.
  intros Ht Hk. apply finishable_bind; [exact Ht |].
  intros [a | e]; [apply Hk | apply finishable_Ret].
Qed.

Lemma finishable_perform {A} (e : worldE A) : finishable (perform e).
Proof.
  apply finishable_bind; [apply finishable_trigger | intros a; apply finishable_Ret].
Qed.

(** The loop can stop at once: on a done operation, or on a poll that
    rejects. *)
Lemma poll_can_stop ai op : exists post r, runs (GeminiService.poll ai op) post r.
Proof.
  destruct (truthy_flag (Sdk.done op)) eqn:Hd.
  - exists [], (Normal op). apply poll_unfold. now rewrite Hd.
  - exists [CSetTimeout 10000; CGetVideosOperation ai op (Thrown (mkError "rejected"))],
      (Thrown (mkError "rejected")).
    apply poll_unfold. rewrite Hd. exists (Thrown (mkError "rejected")), []. now split.
Qed.

Lemma finishable_poll_step ai op : finishable (GeminiService.poll_step ai op).
Proof.
  unfold GeminiService.poll_step. destruct (negb (truthy_flag (Sdk.done op))).
  - apply finishable_bind; [apply finishable_trigger | intros _].
    apply finishable_bind; [apply finishable_trigger |].
    intros [op' | e]; apply finishable_Ret.
  - apply finishable_Ret.
Qed.

Lemma poll_step_continues ai op tr op' :
  runs (GeminiService.poll_step ai op) tr (inl op') ->
  tr = [CSetTimeout 10000; CGetVideosOperation ai op (Normal op')].
Proof.
  unfold GeminiService.poll_step. destruct (negb (truthy_flag (Sdk.done op))).
  - intros H. apply runs_bind_inv in H as (tr1 & [] & tr2 & -> & H1 & H).
    apply runs_trigger in H1 as ->.
    apply runs_bind_inv in H as (tr3 & c & tr4 & -> & H3 & H).
    apply runs_trigger in H3 as ->.
    destruct c as [op'' | e]; apply runs_Ret in H as [-> E]; [| discriminate E].
    now injection E as ->.
  - intros H. apply runs_Ret in H as [_ E]. discriminate E.
Qed.

Lemma finishable_poll ai op : finishable (GeminiService.poll ai op).
Proof.
  intros pre. remember (length pre) as n eqn:En. revert op pre En.
  induction n as [n IH] using lt_wf_ind. intros op pre -> H.
  set (next := fun lr : Sdk.GenerateVideosOperation + completion Sdk.GenerateVideosOperation =>
                 match lr with
                 | inl op' => Tau (GeminiService.poll ai op')
                 | inr r' => Ret r'
                 end).
  assert (Hiter : forall tr r,
             runs (ITree.bind (GeminiService.poll_step ai op) next) tr r ->
             runs (GeminiService.poll ai op) tr r).
  { intros tr r. apply runs_observe. reflexivity. }
  apply (begins_observe _ (ITree.bind (GeminiService.poll_step ai op) next)) in H;
    [| reflexivity].
  apply begins_bind_inv in H as [H | (tr1 & lr & tr2 & -> & H1 & H2)].
  - destruct (finishable_poll_step ai op pre H) as (post1 & lr & H1).
    destruct lr as [op' | r].
    + destruct (poll_can_stop ai op') as (post2 & r & H2).
      exists (post1 ++ post2)%list, r. rewrite app_assoc. apply Hiter.
      eapply runs_bind; [exact H1 |]. unfold next. now apply runs_Tau.
    + exists post1, r. apply Hiter. rewrite <- (app_nil_r (pre ++ post1)).
      eapply runs_bind; [exact H1 |]. unfold next. now apply runs_Ret.
  - destruct lr as [op' | r]; unfold next in H2.
    + apply poll_step_continues in H1 as E. subst tr1.
      assert (H2' : begins (GeminiService.poll ai op') tr2).
      { apply begins_unfold in H2 as [-> | H2]; [apply begins_here | exact H2]. }
      destruct (IH (length tr2) ltac:(cbn; lia) op' tr2 eq_refl H2') as (post & r & Hr).
      exists post, r. rewrite <- app_assoc. apply Hiter.
      eapply runs_bind; [exact H1 |]. unfold next. now apply runs_Tau.
    + apply begins_Ret in H2 as ->. exists [], r. rewrite app_nil_r. apply Hiter.
      eapply runs_bind; [exact H1 |]. unfold next. now apply runs_Ret.
Qed.

Lemma finishable_animateImage imageBase64 prompt aspectRatio :
  finishable (GeminiService.animateImage imageBase64 prompt aspectRatio).
Proof.
  unfold GeminiService.animateImage, GeminiService.getAI.
  apply finishable_await.
  { apply finishable_await; [apply finishable_perform | intros key; apply finishable_trigger]. }
  intros ai. apply finishable_await; [apply finishable_trigger |].
  intros op. apply finishable_await; [apply finishable_poll |].
  intros op_end. unfold GeminiService.download.
  destruct (negb (truthy_opt (GeminiService.downloadLink op_end))); [apply finishable_Ret |].
  apply finishable_await; [apply finishable_perform | intros key].
  apply finishable_await; [apply finishable_trigger | intros videoResponse].
  apply finishable_await; [apply finishable_trigger | intros blob].
  apply finishable_perform.
Qed.

(** C2.  In every execution of [animateImage], finished or under way:
    each wait lasts 10 seconds, is made while the operation held is not
    done and is followed at once by the poll of that operation; each poll
    comes right after such a wait; an operation received that is not done
    is followed at once by a wait and a poll, so the loop goes on for as
    long as the flag is not set and stops when it is; and the video is
    fetched only once the operation held is done.  Conversely, for every
    run of operations that are not done and end on one that is, the loop
    makes exactly these polls and the execution goes on to what follows
    the loop. *)
Theorem animateImage_poll_discipline imageBase64 prompt aspectRatio :
  (* finished executions *)
  (forall tr r,
      runs (GeminiService.animateImage imageBase64 prompt aspectRatio) tr r ->
      forall pre c post,
        tr = (pre ++ c :: post)%list ->
        call_allowed (held_operation None pre) (last_call pre) c post) /\
  (* executions under way: [more] is what is still to come *)
  (forall pre c post,
      begins (GeminiService.animateImage imageBase64 prompt aspectRatio)
             (pre ++ c :: post)%list ->
      exists more,
        call_allowed (held_operation None pre) (last_call pre) c (post ++ more)%list) /\
  (* the loop polls as long as it is answered with operations not done *)
  (forall key ai op later tail r,
      Forall (fun o => ~ is_done o) (removelast (op :: later)) ->
      is_done (last later op) ->
      runs (GeminiService.download (last later op)) tail r ->
      runs (GeminiService.animateImage imageBase64 prompt aspectRatio)
           (client_calls key ai
              ++ CGenerateVideos ai
                   (GeminiService.animateImage_params imageBase64 prompt aspectRatio)
                   (Normal op)
              :: polls ai op later ++ tail)%list
           r).
Proof.
  split; [| split].
  - intros tr r H pre c post E.
    exact (all_allowed_at None None tr (animateImage_allowed _ _ _ _ _ H) pre c post E).
  - intros pre c post H.
    destruct (finishable_animateImage _ _ _ _ H) as (more & r & Hr).
    exists more. rewrite <- app_assoc in Hr. cbn [app] in Hr.
    exact (all_allowed_at None None _ (animateImage_allowed _ _ _ _ _ Hr)
             pre c (post ++ more)%list eq_refl).
  - intros key ai op later tail r Hall Hdone Htail.
    apply animateImage_runs. eexists key, (Normal ai), _. split; [reflexivity |].
    eexists (Normal op), _. split; [reflexivity |].
    exists (polls ai op later), (Normal (last later op)), tail.
    split; [reflexivity |]. split; [| exact Htail].
    apply poll_runs. exists later. split; [exact Hall |]. left. now repeat split.
Qed.

Lemma sample_animation_runs :
  runs (GeminiService.animateImage Sample.base "" AR_9_16)
       Sample.animation_trace (Normal Sample.url).
Proof.
  apply (exec_runs 40 (scripted_world Sample.key (Thrown (mkError "unused"))
                         (Sample.two_polls Sample.finished) (Normal true)) 0).
  vm_compute. reflexivity.
Qed.

Lemma animateImage_poll_discipline_witness :
  runs (GeminiService.animateImage Sample.base "" AR_9_16)
       Sample.animation_trace (Normal Sample.url) /\
  (* at the second poll *)
  call_allowed (Some Sample.still_pending) (Some (CSetTimeout 10000))
    (CGetVideosOperation Sample.ai Sample.still_pending (Normal Sample.finished))
    (skipn 7 Sample.animation_trace) /\
  (* at the fetch *)
  call_allowed (Some Sample.finished) (Some (CEnvApiKey Sample.key))
    (CFetch "https://video.example/v1/files/42:download?alt=media&key=AIza-demo"
       (Normal {| response_url :=
                    "https://video.example/v1/files/42:download?alt=media&key=AIza-demo" |}))
    (skipn 9 Sample.animation_trace).
Proof.
  split; [exact sample_animation_runs |]. split.
  - exact (proj1 (animateImage_poll_discipline Sample.base "" AR_9_16)
             Sample.animation_trace (Normal Sample.url) sample_animation_runs
             (firstn 6 Sample.animation_trace) _ (skipn 7 Sample.animation_trace)
             eq_refl).
  - exact (proj1 (animateImage_poll_discipline Sample.base "" AR_9_16)
             Sample.animation_trace (Normal Sample.url) sample_animation_runs
             (firstn 8 Sample.animation_trace) _ (skipn 9 Sample.animation_trace)
             eq_refl).
Defined.


(** ** After the loop *)

(** Two executions of one tree whose traces start alike are the same. *)
Lemma runs_comparable {R} (t : itree worldE R) a r :
  runs t a r ->
  forall b r' x y,
    runs t b r' -> (a ++ x)%list = (b ++ y)%list -> a = b /\ r = r'.
Proof.
  intros H.
  induction H as [t r H | t u tr r H _ IH | t X e k x0 tr r H _ IH]; intros b r' x y H' E.
  - apply runs_unfold in H'. unfold runs_head in H'. rewrite H in H'.
    destruct H' as [-> ->]. now split.
  - apply runs_unfold in H'. unfold runs_head in H'. rewrite H in H'.
    eapply IH; eauto.
  - apply runs_unfold in H'. unfold runs_head in H'. rewrite H in H'.
    destruct H' as (x1 & b' & -> & H'). cbn in E. injection E as E1 E2.
    apply answered_inj in E1. subst x1.
    destruct (IH _ _ _ _ H' E2) as [-> ->]. now split.
Qed.

Lemma has_video_uri_truthy op :
  has_video_uri op <-> truthy_opt (GeminiService.downloadLink op) = true.
Proof.
  unfold has_video_uri. destruct (GeminiService.downloadLink op) as [[| a link] |]; cbn.
  - split; [intros (l & [= <-] & Hl); now elim Hl | discriminate].
  - split; [reflexivity | intros _; eexists; split; [reflexivity | discriminate]].
  - split; [intros (l & [=] & _) | discriminate].
Qed.

(** An execution of [animateImage] that has received a done operation
    goes on as [download] does. *)
Lemma animateImage_after_loop imageBase64 prompt aspectRatio key ai op later tail r :
  Forall (fun o => ~ is_done o) (removelast (op :: later)) ->
  is_done (last later op) ->
  runs (GeminiService.animateImage imageBase64 prompt aspectRatio)
       (client_calls key ai
          ++ CGenerateVideos ai
               (GeminiService.animateImage_params imageBase64 prompt aspectRatio)
               (Normal op)
          :: polls ai op later ++ tail)%list r <->
  runs (GeminiService.download (last later op)) tail r.
Proof.
  intros Hall Hdone.
  assert (Hpoll : runs (GeminiService.poll ai op) (polls ai op later)
                       (Normal (last later op))).
  { apply poll_runs. exists later. split; [exact Hall |]. left. now repeat split. }
  split.
  - intros H. apply animateImage_runs in H as (key' & created & tr1 & E & H).
    cbn in E. inversion E; subst key' created tr1; clear E.
    destruct H as (started & tr2 & E & H). inversion E; subst started tr2; clear E.
    destruct H as (tr_poll & polled & tr_end & E & Hp & H).
    destruct (runs_comparable _ _ _ Hpoll _ _ _ _ Hp E) as [<- <-].
    apply app_inv_head in E. now subst tr_end.
  - intros H. apply animateImage_runs. eexists key, (Normal ai), _.
    split; [reflexivity |]. eexists (Normal op), _. split; [reflexivity |].
    exists (polls ai op later), (Normal (last later op)), tail. now repeat split.
Qed.

(** The link the code downloads from is the URI of the first generated
    video. *)
Lemma downloadLink_first_video op :
  GeminiService.downloadLink op = first_video_uri op.
Proof.
  unfold GeminiService.downloadLink, first_video_uri, generated_videos_of, uri_of.
  destruct (Sdk.response op) as [response |]; [| reflexivity].
  destruct (Sdk.generatedVideos response) as [[| generated rest] |]; reflexivity.
Qed.

Lemma first_video_has_uri_truthy op :
  first_video_has_uri op <-> truthy_opt (GeminiService.downloadLink op) = true.
Proof.
  rewrite <- has_video_uri_truthy. unfold first_video_has_uri, has_video_uri.
  now rewrite downloadLink_first_video.
Qed.

(** C6.  Once the operation held is done, [animateImage] throws 'Video
    generation failed', without fetching anything, if and only if the
    first generated video of the response of that operation has no URI to
    fetch (the URI is absent or empty); when it has one, [animateImage]
    fetches that URI with '&key=' and the API key appended, and returns
    the object URL made of the blob of the fetched response. *)
Theorem animateImage_download
    imageBase64 prompt aspectRatio key ai op later :
  Forall (fun o => ~ is_done o) (removelast (op :: later)) ->
  is_done (last later op) ->
  let started :=
    (client_calls key ai
       ++ CGenerateVideos ai
            (GeminiService.animateImage_params imageBase64 prompt aspectRatio)
            (Normal op)
       :: polls ai op later)%list in
  (* what every execution does from there *)
  (forall tail r,
      runs (GeminiService.animateImage imageBase64 prompt aspectRatio)
           (started ++ tail)%list r ->
      ((tail = [] /\ r = Thrown (mkError "Video generation failed")) <->
       ~ first_video_has_uri (last later op)) /\
      (forall link,
          first_video_uri (last later op) = Some link -> link <> "" ->
          exists key' fetched rest,
            tail = CEnvApiKey key'
                     :: CFetch (link ++ "&key=" ++ interpolate key') fetched
                     :: rest /\
            forall videoResponse blob url,
              fetched = Normal videoResponse ->
              rest = [CResponseBlob videoResponse (Normal blob);
                      CCreateObjectURL blob url] ->
              r = Normal url)) /\
  (* and that it does it *)
  (~ first_video_has_uri (last later op) ->
   runs (GeminiService.animateImage imageBase64 prompt aspectRatio)
        started (Thrown (mkError "Video generation failed"))) /\
  (forall link key' videoResponse blob url,
      first_video_uri (last later op) = Some link -> link <> "" ->
      runs (GeminiService.animateImage imageBase64 prompt aspectRatio)
           (started
              ++ [CEnvApiKey key';
                  CFetch (link ++ "&key=" ++ interpolate key') (Normal videoResponse);
                  CResponseBlob videoResponse (Normal blob);
                  CCreateObjectURL blob url])%list
           (Normal url)).
Proof.
  intros Hall Hdone started.
  assert (Hsplit : forall tail,
             (started ++ tail)%list
             = (client_calls key ai
                  ++ CGenerateVideos ai
                       (GeminiService.animateImage_params imageBase64 prompt aspectRatio)
                       (Normal op)
                  :: polls ai op later ++ tail)%list).
  { intros tail. unfold started. rewrite <- app_assoc. reflexivity. }
  split; [| split].
  - intros tail r H. rewrite Hsplit in H.
    apply (animateImage_after_loop _ _ _ _ _ _ _ _ _ Hall Hdone) in H.
    apply download_runs in H. rewrite first_video_has_uri_truthy.
    rewrite <- downloadLink_first_video.
    destruct (truthy_opt (GeminiService.downloadLink (last later op))) eqn:Hlink.
    + destruct H as (key' & fetched & rest & -> & H). split.
      * split; [intros [E _]; discriminate E | intros Hn; now elim Hn].
      * intros link El _. rewrite El in *. cbn [interpolate] in *.
        exists key', fetched, rest. split; [reflexivity |].
        intros videoResponse blob url -> ->.
        destruct H as (blobbed & rest' & E & H). injection E as <- <-.
        destruct H as (url' & E & ->). now injection E as <-.
    + destruct H as [-> ->]. split.
      * split; [discriminate | now split].
      * intros link El Hne. rewrite El in Hlink. destruct link; [now elim Hne | discriminate].
  - intros Hno. rewrite <- (app_nil_r started), Hsplit.
    apply (animateImage_after_loop _ _ _ _ _ _ _ _ _ Hall Hdone).
    apply download_runs.
    rewrite first_video_has_uri_truthy in Hno. apply not_true_is_false in Hno.
    rewrite Hno. now split.
  - intros link key' videoResponse blob url El Hne. rewrite Hsplit.
    apply (animateImage_after_loop _ _ _ _ _ _ _ _ _ Hall Hdone).
    apply download_runs. rewrite <- downloadLink_first_video in El. rewrite El.
    destruct link as [| a link]; [now elim Hne |]. cbn [truthy_opt truthy interpolate].
    eexists key', (Normal videoResponse), _. split; [reflexivity |].
    eexists (Normal blob), _. split; [reflexivity |]. now exists url.
Qed.

Lemma animateImage_download_witness :
  (* done at the second poll, with two videos: the first is fetched *)
  ((Forall (fun o => ~ is_done o)
           (removelast [Sample.pending; Sample.still_pending; Sample.finished_two]) /\
    is_done (last [Sample.still_pending; Sample.finished_two] Sample.pending) /\
    first_video_uri Sample.finished_two
    = Some "https://video.example/v1/files/42:download?alt=media") /\
   runs (GeminiService.animateImage Sample.base "" AR_9_16)
        [CEnvApiKey Sample.key;
         CNewGoogleGenAI Sample.key (Normal Sample.ai);
         CGenerateVideos Sample.ai
           (GeminiService.animateImage_params Sample.base "" AR_9_16)
           (Normal Sample.pending);
         CSetTimeout 10000;
         CGetVideosOperation Sample.ai Sample.pending (Normal Sample.still_pending);
         CSetTimeout 10000;
         CGetVideosOperation Sample.ai Sample.still_pending (Normal Sample.finished_two);
         CEnvApiKey Sample.key;
         CFetch "https://video.example/v1/files/42:download?alt=media&key=AIza-demo"
           (Normal {| response_url :=
                        "https://video.example/v1/files/42:download?alt=media&key=AIza-demo" |});
         CResponseBlob
           {| response_url :=
                "https://video.example/v1/files/42:download?alt=media&key=AIza-demo" |}
           (Normal {| blob_bytes := "AAAAIGZ0eXBpc29t" |});
         CCreateObjectURL {| blob_bytes := "AAAAIGZ0eXBpc29t" |} Sample.url]
        (Normal Sample.url)) /\
  (* done at the first poll, the first generated video without a video *)
  ((Forall (fun o => ~ is_done o)
           (removelast [Sample.pending; Sample.finished_second_only]) /\
    is_done (last [Sample.finished_second_only] Sample.pending) /\
    first_video_uri Sample.finished_second_only = None) /\
   runs (GeminiService.animateImage Sample.base "" AR_9_16)
        [CEnvApiKey Sample.key;
         CNewGoogleGenAI Sample.key (Normal Sample.ai);
         CGenerateVideos Sample.ai
           (GeminiService.animateImage_params Sample.base "" AR_9_16)
           (Normal Sample.pending);
         CSetTimeout 10000;
         CGetVideosOperation Sample.ai Sample.pending
           (Normal Sample.finished_second_only)]
        (Thrown (mkError "Video generation failed"))).
Proof.
  assert (Hnot : Forall (fun o => ~ is_done o)
                   (removelast [Sample.pending; Sample.still_pending;
                                Sample.finished_two])).
  { repeat constructor; intros E; discriminate E. }
  assert (Hdone : is_done (last [Sample.still_pending; Sample.finished_two]
                             Sample.pending)).
  { reflexivity. }
  assert (Hnot' : Forall (fun o => ~ is_done o)
                    (removelast [Sample.pending; Sample.finished_second_only])).
  { repeat constructor; intros E; discriminate E. }
  assert (Hdone' : is_done (last [Sample.finished_second_only] Sample.pending)).
  { reflexivity. }
  assert (Hnone : ~ first_video_has_uri
                      (last [Sample.finished_second_only] Sample.pending)).
  { intros (link & E & _). discriminate E. }
  split.
  - split; [now repeat split |].
    exact (proj2 (proj2 (animateImage_download Sample.base "" AR_9_16 Sample.key Sample.ai
                           Sample.pending [Sample.still_pending; Sample.finished_two]
                           Hnot Hdone))
             "https://video.example/v1/files/42:download?alt=media" Sample.key
             {| response_url :=
                  "https://video.example/v1/files/42:download?alt=media&key=AIza-demo" |}
             {| blob_bytes := "AAAAIGZ0eXBpc29t" |} Sample.url
             eq_refl ltac:(discriminate)).
  - split; [now repeat split |].
    exact (proj1 (proj2 (animateImage_download Sample.base "" AR_9_16 Sample.key Sample.ai
                           Sample.pending [Sample.finished_second_only] Hnot' Hdone'))
             Hnone).
Defined.

(** ** Executions of the run handlers *)

Lemma runs_set f st tr out :
  runs (App.set f st) tr out <-> tr = [] /\ out = (f st, Normal tt).
Proof. apply runs_Ret. Qed.

Lemma runs_awaiting {A} (t : async A) st tr out :
  runs (App.awaiting t st) tr out <-> exists c, runs t tr c /\ out = (st, c).
Proof.
  unfold App.awaiting. split.
  - intros H. apply runs_bind_inv in H as (tr1 & c & tr2 & -> & Ht & Hk).
    apply runs_Ret in Hk as [-> ->]. rewrite app_nil_r. now exists c.
  - intros (c & Ht & ->). rewrite <- (app_nil_r tr).
    eapply runs_bind; [exact Ht | now apply runs_Ret].
Qed.

Lemma runs_seq {A B} (m : App.handler A) (k : A -> App.handler B) st tr out :
  runs (App.seq m k st) tr out <->
  exists tr1 st1 c1 tr2,
    tr = (tr1 ++ tr2)%list /\ runs (m st) tr1 (st1, c1) /\
    match c1 with
    | Normal a => runs (k a st1) tr2 out
    | Thrown e => tr2 = [] /\ out = (st1, Thrown e)
    end.
Proof.
  unfold App.seq. split.
  - intros H. apply runs_bind_inv in H as (tr1 & [st1 c1] & tr2 & -> & Hm & Hk).
    exists tr1, st1, c1, tr2. split; [reflexivity |]. split; [exact Hm |].
    cbn in Hk. destruct c1 as [a | e]; [exact Hk | now apply runs_Ret in Hk].
  - intros (tr1 & st1 & c1 & tr2 & -> & Hm & Hk).
    eapply runs_bind; [exact Hm |]. cbn.
    destruct c1 as [a | e]; [exact Hk | now apply runs_Ret].
Qed.

Lemma runs_try_catch_finally {A}
      (body : App.handler A) (on_error : Js.Error -> App.handler A)
      (at_last : App.handler unit) st tr out :
  runs (App.try_catch_finally body on_error at_last st) tr out <->
  exists tr1 st1 c1 tr2 st2 c2 tr3 st3 c3,
    tr = (tr1 ++ tr2 ++ tr3)%list /\
    runs (body st) tr1 (st1, c1) /\
    match c1 with
    | Normal a => tr2 = [] /\ st2 = st1 /\ c2 = Normal a
    | Thrown err => runs (on_error err st1) tr2 (st2, c2)
    end /\
    runs (at_last st2) tr3 (st3, c3) /\
    out = (st3, match c3 with
                | Normal _ => c2
                | Thrown e => Thrown e
                end).
Proof.
  unfold App.try_catch_finally. split.
  - intros H. apply runs_bind_inv in H as (tr1 & [st1 c1] & tr' & -> & Hb & H).
    apply runs_bind_inv in H as (tr2 & [st2 c2] & tr'' & -> & Hc & H).
    apply runs_bind_inv in H as (tr3 & [st3 c3] & tr4 & -> & Hf & H).
    apply runs_Ret in H as [-> ->]. rewrite app_nil_r.
    exists tr1, st1, c1, tr2, st2, c2, tr3, st3, c3.
    split; [reflexivity |]. split; [exact Hb |]. split; [| now split].
    cbn in Hc. destruct c1 as [a | err]; [| exact Hc].
    apply runs_Ret in Hc as [-> [= -> ->]]. now repeat split.
  - intros (tr1 & st1 & c1 & tr2 & st2 & c2 & tr3 & st3 & c3 & -> & Hb & Hc & Hf & ->).
    eapply runs_bind; [exact Hb |]. eapply runs_bind with (x := (st2, c2)).
    + cbn. destruct c1 as [a | err]; [| exact Hc].
      destruct Hc as (-> & -> & ->). now apply runs_Ret.
    + rewrite <- (app_nil_r tr3). eapply runs_bind; [exact Hf | now apply runs_Ret].
Qed.

(** [checkApiKey] never rejects. *)
Lemma checkApiKey_resolves tr c :
  runs App.checkApiKey tr c -> exists ok, c = Normal ok.
Proof.
  unfold App.checkApiKey. intros H.
  apply runs_bind_inv in H as (tr1 & c1 & tr2 & -> & _ & H).
  destruct c1 as [b | e]; run_inv; eauto.
Qed.

Lemma addAsset_runs url type assetPrompt st tr out :
  runs (App.addAsset url type assetPrompt st) tr out <->
  exists id timestamp,
    tr = [CRandomId id; CDateNow timestamp] /\
    out = (App.with_activeTool HISTORY
             (App.update_assets
                (fun prev =>
                   {| asset_id := id; asset_url := url; asset_type := type;
                      asset_prompt := assetPrompt; asset_timestamp := timestamp |}
                     :: prev) st),
           Normal tt).
Proof.
  unfold App.addAsset. split.
  - intros H.
    apply runs_seq in H as (tr1 & st1 & c1 & tr2 & -> & H1 & H).
    apply runs_awaiting in H1 as (c & H1 & [= -> ->]).
    apply runs_perform in H1 as (id & -> & ->).
    apply runs_seq in H as (tr3 & st3 & c3 & tr4 & -> & H3 & H).
    apply runs_awaiting in H3 as (c & H3 & [= -> ->]).
    apply runs_perform in H3 as (timestamp & -> & ->).
    apply runs_seq in H as (tr5 & st5 & c5 & tr6 & -> & H5 & H).
    apply runs_set in H5 as [-> [= -> ->]].
    apply runs_set in H as [-> ->].
    exists id, timestamp. split; reflexivity.
  - intros (id & timestamp & -> & ->).
    apply runs_seq. exists [CRandomId id], st, (Normal id), [CDateNow timestamp].
    split; [reflexivity |]. split.
    { apply runs_awaiting. exists (Normal id). split; [| reflexivity].
      apply runs_perform. now exists id. }
    apply runs_seq. exists [CDateNow timestamp], st, (Normal timestamp), [].
    split; [reflexivity |]. split.
    { apply runs_awaiting. exists (Normal timestamp). split; [| reflexivity].
      apply runs_perform. now exists timestamp. }
    apply runs_seq. eexists [], _, (Normal tt), []. split; [reflexivity |]. split.
    { apply runs_set. split; reflexivity. }
    apply runs_set. split; reflexivity.
Qed.

Lemma on_failure_runs fallback err st tr st' c :
  runs (App.on_failure fallback err st) tr (st', c) ->
  st' = App.with_error (Some (or_else (message err) fallback)) st.
Proof.
  unfold App.on_failure. intros H.
  apply runs_seq in H as (tr1 & st1 & c1 & tr2 & -> & H1 & H).
  apply runs_set in H1 as [-> [= -> ->]].
  destruct (includes "Requested entity was not found" (message err)).
  - apply runs_awaiting in H as (c' & _ & [= -> _]). reflexivity.
  - apply runs_Ret in H as [_ [= -> _]]. reflexivity.
Qed.

Lemma guarded_run_outcome message service type assetPrompt fallback st tr st' c :
  runs (guarded_run message service type assetPrompt fallback st) tr (st', c) ->
  run_outcome service type assetPrompt fallback st tr st'.
Proof.
  unfold guarded_run. intros H.
  apply runs_seq in H as (tr1 & st1 & c1 & tr2 & -> & H1 & H).
  apply runs_set in H1 as [-> [= -> ->]].
  apply runs_seq in H as (tr1 & st1 & c1 & tr3 & -> & H1 & H).
  apply runs_set in H1 as [-> [= -> ->]].
  apply runs_seq in H as (tr1 & st1 & c1 & tr4 & -> & H1 & H).
  apply runs_set in H1 as [-> [= -> ->]].
  cbn [app].
  apply runs_try_catch_finally in H
    as (tb & sb & cb & tc & sc & cc & tf & sf & cf & -> & Hb & Hc & Hf & E).
  injection E as -> _.
  apply runs_set in Hf. destruct Hf as [-> E]. injection E as -> _.
  apply runs_seq in Hb as (tr_key & s1 & c_key & tr' & -> & Hkey & Hb).
  apply runs_awaiting in Hkey as (c_key' & Hkey & [= -> ->]).
  destruct (checkApiKey_resolves _ _ Hkey) as (ok & ->).
  apply runs_seq in Hb as (tr_service & s2 & c_service & tr_rest & -> & Hsvc & Hb).
  apply runs_awaiting in Hsvc as (result & Hsvc & [= -> ->]).
  split; [destruct sc; reflexivity |].
  destruct result as [url | err].
  - apply addAsset_runs in Hb as (id & timestamp & -> & [= -> ->]).
    destruct Hc as (-> & -> & _). rewrite !app_nil_r.
    exists tr_key, ok, tr_service, (Normal url), [CRandomId id; CDateNow timestamp].
    rewrite <- ?app_assoc.
    split; [reflexivity |]. split; [exact Hkey |]. split; [exact Hsvc |].
    exists id, timestamp. repeat split.
  - destruct Hb as [-> [= -> ->]].
    apply on_failure_runs in Hc as Hst. subst sc. rewrite !app_nil_r.
    exists tr_key, ok, tr_service, (Thrown err), tc.
    rewrite <- ?app_assoc.
    split; [reflexivity |]. split; [exact Hkey |]. split; [exact Hsvc |].
    repeat split.
Qed.

(** ** The guards *)

Lemma setError_guard_outcome (h : App.handler unit) msg st :
  h st = App.setError (Some msg) st -> guard_outcome h msg st.
Proof.
  intros E. exists (App.with_error (Some msg) st). rewrite E.
  split; [now apply runs_set |]. split; [| split; [| now repeat split]].
  - intros tr out H. now apply runs_set in H.
  - intros pre H. now apply begins_Ret in H.
Qed.

(** C8.  Each run handler checks what it needs before any call:
    [runGeneration] on an empty prompt sets the error to 'Please enter a
    prompt'; [runEditing] with either image missing sets it to 'Please
    upload both images'; [runAnimation] with no image sets it to 'Please
    upload an image to animate'.  In each case the handler returns having
    made no call, so none to GeminiService, and the loading flag and the
    assets are as they were. *)
Theorem run_guards st :
  (App.prompt st = "" ->
   guard_outcome App.runGeneration "Please enter a prompt" st) /\
  (App.baseImage st = None \/ App.colorImage st = None ->
   guard_outcome App.runEditing "Please upload both images" st) /\
  (App.animateImage st = None ->
   guard_outcome App.runAnimation "Please upload an image to animate" st).
Proof.
  split; [| split].
  - intros E. apply setError_guard_outcome. unfold App.runGeneration. now rewrite E.
  - intros E. apply setError_guard_outcome. unfold App.runEditing.
    destruct E as [E | E]; rewrite E; [reflexivity |].
    now destruct (App.baseImage st).
  - intros E. apply setError_guard_outcome. unfold App.runAnimation. now rewrite E.
Qed.

Lemma run_guards_witness :
  guard_outcome App.runGeneration "Please enter a prompt" Sample.initial /\
  guard_outcome App.runEditing "Please upload both images" Sample.uploaded /\
  guard_outcome App.runAnimation "Please upload an image to animate" Sample.prompted.
Proof.
  split; [| split].
  - exact (proj1 (run_guards Sample.initial) eq_refl).
  - exact (proj1 (proj2 (run_guards Sample.uploaded)) (or_introl eq_refl)).
  - exact (proj2 (proj2 (run_guards Sample.prompted)) eq_refl).
Defined.

(** ** The outcome of a run *)

(** C9, as amended.  Every finished execution of [runGeneration],
    [runEditing] or [runAnimation] that got past its guard leaves the
    loading flag down, whether the service call returned or threw.  When
    it returned, exactly one new asset is in front of the assets, with the
    returned URL, the type 'image' or 'video' of the handler, and as its
    prompt the prompt (for [runEditing] and [runAnimation]: 'Styled Blend'
    and 'Cinematic Motion' when the prompt is empty), and the tool is
    HISTORY.  When it threw, the assets and the tool are as they were and
    the error is the message of what was thrown, or, when that message is
    empty, 'Generation failed', 'Editing failed' or 'Animation failed'. *)
Theorem run_handlers_outcome st tr st' c :
  (App.prompt st <> "" ->
   runs (App.runGeneration st) tr (st', c) ->
   run_outcome
     (GeminiService.generateImage (App.prompt st) (App.size st) (App.aspectRatio st))
     image (App.prompt st) "Generation failed" st tr st') /\
  (forall baseImage colorImage,
      App.baseImage st = Some baseImage -> App.colorImage st = Some colorImage ->
      baseImage <> "" -> colorImage <> "" ->
      runs (App.runEditing st) tr (st', c) ->
      run_outcome
        (GeminiService.editImage baseImage colorImage (App.prompt st))
        image (or_else (App.prompt st) "Styled Blend") "Editing failed" st tr st') /\
  (forall animateImage,
      App.animateImage st = Some animateImage -> animateImage <> "" ->
      runs (App.runAnimation st) tr (st', c) ->
      run_outcome
        (GeminiService.animateImage animateImage (App.prompt st) (App.aspectRatio st))
        video (or_else (App.prompt st) "Cinematic Motion") "Animation failed" st tr st').
Proof.
  split; [| split].
  - intros Hp H. unfold App.runGeneration in H.
    destruct (App.prompt st) as [| a p] eqn:E; [now elim Hp |]. cbn [truthy negb] in H.
    exact (guarded_run_outcome _ _ _ _ _ _ _ _ _ H).
  - intros baseImage colorImage Eb Ec Hb Hc H. unfold App.runEditing in H.
    rewrite Eb, Ec in H.
    destruct baseImage as [| a b]; [now elim Hb |].
    destruct colorImage as [| a' b']; [now elim Hc |]. cbn [truthy negb orb] in H.
    exact (guarded_run_outcome _ _ _ _ _ _ _ _ _ H).
  - intros animateImage Ea Ha H. unfold App.runAnimation in H. rewrite Ea in H.
    destruct animateImage as [| a b]; [now elim Ha |]. cbn [truthy negb] in H.
    exact (guarded_run_outcome _ _ _ _ _ _ _ _ _ H).
Qed.

Lemma sample_animation_run :
  exists st',
    runs (App.runAnimation Sample.uploaded)
         (CHasSelectedApiKey (Normal true)
            :: Sample.animation_trace
            ++ [CRandomId "k3x9f"; CDateNow 1767225600000])%list
         (st', Normal tt) /\
    App.assets st' =
      [ {| asset_id := "k3x9f"; asset_url := Sample.url; asset_type := video;
           asset_prompt := "Cinematic Motion";
           asset_timestamp := 1767225600000 |} ] /\
    App.loading st' = false.
Proof.
  eexists. split; [| split].
  - apply (exec_runs 80 (scripted_world Sample.key (Thrown (mkError "unused"))
                           (Sample.two_polls_later Sample.finished) (Normal true)) 0).
    lazy. reflexivity.
  - reflexivity.
  - reflexivity.
Qed.

Lemma sample_failed_generation_run :
  exists st',
    runs (App.runGeneration Sample.prompted)
         [CHasSelectedApiKey (Normal true);
          CEnvApiKey Sample.key;
          CNewGoogleGenAI Sample.key (Normal Sample.ai);
          CGenerateContent Sample.ai
            (GeminiService.generateImage_params "a red fox" Size1K AR_1_1)
            (Thrown (mkError ""))]
         (st', Normal tt) /\
    App.error st' = Some "Generation failed" /\
    App.loading st' = false.
Proof.
  eexists. split; [| split].
  - apply (exec_runs 80 (scripted_world Sample.key (Thrown (mkError ""))
                           Sample.no_videos (Normal true)) 0).
    lazy. reflexivity.
  - reflexivity.
  - reflexivity.
Qed.

(** C9, as it is stated, fails twice.  [runAnimation] on an empty prompt
    succeeds and the prompt of the new asset is 'Cinematic Motion', not the
    prompt; and when what the service throws has an empty message, the
    error is 'Generation failed', not that message. *)
Lemma fallback_texts_counterexample :
  (App.prompt Sample.uploaded = "" /\
   exists st',
     runs (App.runAnimation Sample.uploaded)
          (CHasSelectedApiKey (Normal true)
             :: Sample.animation_trace
             ++ [CRandomId "k3x9f"; CDateNow 1767225600000])%list
          (st', Normal tt) /\
     map asset_prompt (App.assets st') = ["Cinematic Motion"] /\
     map asset_prompt (App.assets st') <> [App.prompt Sample.uploaded]) /\
  (exists st',
      runs (App.runGeneration Sample.prompted)
           [CHasSelectedApiKey (Normal true);
            CEnvApiKey Sample.key;
            CNewGoogleGenAI Sample.key (Normal Sample.ai);
            CGenerateContent Sample.ai
              (GeminiService.generateImage_params "a red fox" Size1K AR_1_1)
              (Thrown (mkError ""))]
           (st', Normal tt) /\
      App.error st' = Some "Generation failed" /\
      App.error st' <> Some (message (mkError ""))).
Proof.
  split.
  - split; [reflexivity |].
    destruct sample_animation_run as (st' & H & Ha & _).
    exists st'. split; [exact H |]. rewrite Ha. split; [reflexivity | discriminate].
  - destruct sample_failed_generation_run as (st' & H & He & _).
    exists st'. split; [exact H |]. rewrite He. split; [reflexivity | discriminate].
Qed.

Lemma run_handlers_outcome_witness :
  exists st',
    (App.animateImage Sample.uploaded = Some Sample.base /\
     Sample.base <> "" /\
     runs (App.runAnimation Sample.uploaded)
          (CHasSelectedApiKey (Normal true)
             :: Sample.animation_trace
             ++ [CRandomId "k3x9f"; CDateNow 1767225600000])%list
          (st', Normal tt)) /\
    run_outcome
      (GeminiService.animateImage Sample.base "" AR_9_16)
      video "Cinematic Motion" "Animation failed" Sample.uploaded
      (CHasSelectedApiKey (Normal true)
         :: Sample.animation_trace
         ++ [CRandomId "k3x9f"; CDateNow 1767225600000])%list
      st'.
Proof.
  destruct sample_animation_run as (st' & H & _).
  exists st'.
  assert (Hne : Sample.base <> "") by discriminate.
  split; [now repeat split |].
  exact (proj2 (proj2 (run_handlers_outcome Sample.uploaded _ st' (Normal tt)))
           Sample.base eq_refl Hne H).
Defined.

(** * More of the code *)

(** ** Strings *)

Lemma starts_with_spec needle hay :
  starts_with needle hay = true <-> exists post, hay = needle ++ post.
Proof.
  revert hay. induction needle as [| a n IH]; intros hay; cbn.
  - split; [intros _; now exists hay | reflexivity].
  - destruct hay as [| b h].
    + split; [discriminate | intros (post & E); discriminate E].
    + rewrite andb_true_iff, Ascii.eqb_eq, IH. split.
      * intros (-> & post & ->). now exists post.
      * intros (post & E). injection E as -> ->. split; [reflexivity | now exists post].
Qed.

(** [hay.includes(needle)] holds exactly when [needle] occurs in [hay]. *)
Lemma includes_spec needle hay :
  includes needle hay = true <-> exists pre post, hay = pre ++ needle ++ post.
Proof.
  induction hay as [| b h IH].
  - cbn [includes]. rewrite orb_false_r, starts_with_spec. split.
    + intros (post & E). now exists "", post.
    + intros (pre & post & E). destruct pre as [| a pre]; [| discriminate E].
      now exists post.
  - cbn [includes]. rewrite orb_true_iff, starts_with_spec, IH. split.
    + intros [(post & E) | (pre & post & E)].
      * now exists "", post.
      * exists (String b pre), post. cbn. now rewrite E.
    + intros (pre & post & E). destruct pre as [| a pre].
      * left. now exists post.
      * right. cbn in E. injection E as _ E. now exists pre, post.
Qed.



(** ** Traces of the service, call by call *)

Lemma rejections_app tr1 tr2 :
  rejections (tr1 ++ tr2)%list = (rejections tr1 ++ rejections tr2)%list.
Proof. apply flat_map_app. Qed.

Lemma clients_used_app tr1 tr2 :
  clients_used (tr1 ++ tr2)%list = (clients_used tr1 ++ clients_used tr2)%list.
Proof. apply flat_map_app. Qed.

Lemma client_keys_app tr1 tr2 :
  client_keys (tr1 ++ tr2)%list = (client_keys tr1 ++ client_keys tr2)%list.
Proof. apply flat_map_app. Qed.

Lemma content_requests_app tr1 tr2 :
  content_requests (tr1 ++ tr2)%list
  = (content_requests tr1 ++ content_requests tr2)%list.
Proof. apply flat_map_app. Qed.

Lemma total_wait_app tr1 tr2 :
  total_wait (tr1 ++ tr2)%list = (total_wait tr1 + total_wait tr2)%Z.
Proof.
  induction tr1 as [| c tr1 IH]; [reflexivity |].
  destruct c; cbn; rewrite ?IH; lia.
Qed.

Lemma poll_count_app tr1 tr2 :
  poll_count (tr1 ++ tr2)%list = poll_count tr1 + poll_count tr2.
Proof.
  induction tr1 as [| c tr1 IH]; [reflexivity |].
  destruct c; cbn; rewrite ?IH; reflexivity.
Qed.

Lemma key_prompts_app tr1 tr2 :
  key_prompts (tr1 ++ tr2)%list = key_prompts tr1 + key_prompts tr2.
Proof.
  induction tr1 as [| c tr1 IH]; [reflexivity |].
  destruct c; cbn; rewrite ?IH; reflexivity.
Qed.

(** What the polls of the loop show. *)
Lemma polls_facts ai op later :
  rejections (polls ai op later) = [] /\
  client_keys (polls ai op later) = [] /\
  content_requests (polls ai op later) = [] /\
  key_prompts (polls ai op later) = 0 /\
  Forall (eq ai) (clients_used (polls ai op later)) /\
  poll_count (polls ai op later) = length later /\
  total_wait (polls ai op later) = (10000 * Z.of_nat (length later))%Z.
Proof.
  revert op. induction later as [| op' later IH]; intros op.
  - cbn. repeat split. constructor.
  - destruct (IH op') as (H1 & H2 & H3 & H4 & H5 & H6 & H7).
    cbn [polls rejections client_keys content_requests key_prompts clients_used
         poll_count total_wait flat_map rejection app length] in *.
    rewrite H6, H7. repeat split; auto. lia.
Qed.

(** The executions of what follows the loop, one by one. *)
Lemma download_cases op tail r :
  runs (GeminiService.download op) tail r ->
  (~ has_video_uri op /\ tail = [] /\ r = Thrown (mkError "Video generation failed")) \/
  (exists link key,
      GeminiService.downloadLink op = Some link /\ link <> "" /\
      ((exists e,
           tail = [CEnvApiKey key;
                   CFetch (link ++ "&key=" ++ interpolate key) (Thrown e)] /\
           r = Thrown e) \/
       (exists videoResponse e,
           tail = [CEnvApiKey key;
                   CFetch (link ++ "&key=" ++ interpolate key) (Normal videoResponse);
                   CResponseBlob videoResponse (Thrown e)] /\
           r = Thrown e) \/
       (exists videoResponse blob url,
           tail = [CEnvApiKey key;
                   CFetch (link ++ "&key=" ++ interpolate key) (Normal videoResponse);
                   CResponseBlob videoResponse (Normal blob);
                   CCreateObjectURL blob url] /\
           r = Normal url))).
Proof.
  intros H. apply download_runs in H.
  destruct (truthy_opt (GeminiService.downloadLink op)) eqn:Hl.
  - right. apply has_video_uri_truthy in Hl as (link & El & Hne).
    rewrite El in H. cbn [interpolate] in H.
    destruct H as (key & fetched & rest & -> & H). exists link, key.
    split; [exact El |]. split; [exact Hne |].
    destruct fetched as [videoResponse | e].
    + destruct H as (blobbed & rest' & -> & H). destruct blobbed as [blob | e].
      * destruct H as (url & -> & ->). right. right. now exists videoResponse, blob, url.
      * destruct H as [-> ->]. right. left. now exists videoResponse, e.
    + destruct H as [-> ->]. left. now exists e.
  - left. destruct H as [-> ->]. split; [| now split].
    rewrite has_video_uri_truthy, Hl. discriminate.
Qed.

(** Every execution of [animateImage], laid out. *)
Lemma animateImage_shape imageBase64 prompt aspectRatio tr r :
  runs (GeminiService.animateImage imageBase64 prompt aspectRatio) tr r ->
  exists key,
    (exists e, tr = [CEnvApiKey key; CNewGoogleGenAI key (Thrown e)] /\ r = Thrown e) \/
    exists ai,
      let params := GeminiService.animateImage_params imageBase64 prompt aspectRatio in
      (exists e,
          tr = (client_calls key ai ++ [CGenerateVideos ai params (Thrown e)])%list /\
          r = Thrown e) \/
      exists op later,
        Forall (fun o => ~ is_done o) (removelast (op :: later)) /\
        ((~ is_done (last later op) /\
          exists e,
            tr = (client_calls key ai
                    ++ CGenerateVideos ai params (Normal op)
                    :: polls ai op later
                    ++ [CSetTimeout 10000;
                        CGetVideosOperation ai (last later op) (Thrown e)])%list /\
            r = Thrown e) \/
         (is_done (last later op) /\
          exists tail,
            tr = (client_calls key ai
                    ++ CGenerateVideos ai params (Normal op)
                    :: polls ai op later ++ tail)%list /\
            runs (GeminiService.download (last later op)) tail r)).
Proof.
  intros H. apply animateImage_runs in H as (key & created & tr1 & -> & H).
  exists key. destruct created as [ai | e]; [| destruct H as [-> ->]; left; now exists e].
  right. exists ai. intros params. destruct H as (started & tr2 & -> & H).
  destruct started as [op | e]; [| destruct H as [-> ->]; left; now exists e].
  right. destruct H as (tr_poll & polled & tr_end & -> & Hp & H).
  apply poll_runs in Hp as (later & Hall & Hend). exists op, later.
  split; [exact Hall |].
  destruct Hend as [(Hdone & -> & ->) | (Hnot & e & -> & ->)].
  - right. split; [exact Hdone |]. now exists tr_end.
  - left. destruct H as [-> ->]. rewrite app_nil_r. split; [exact Hnot |]. now exists e.
Qed.

(** ** What the service does with its client, its errors and its waits *)

Lemma generateImage_cases prompt size aspectRatio tr r :
  runs (GeminiService.generateImage prompt size aspectRatio) tr r ->
  exists key,
    (exists e, tr = [CEnvApiKey key; CNewGoogleGenAI key (Thrown e)] /\ r = Thrown e) \/
    exists ai c,
      tr = [CEnvApiKey key; CNewGoogleGenAI key (Normal ai);
            CGenerateContent ai
              (GeminiService.generateImage_params prompt size aspectRatio) c] /\
      r = image_outcome "No image data returned from model" c.
Proof.
  intros H. apply generateImage_runs in H as (key & [H | (ai & c & H)]); exists key.
  - now left.
  - right. now exists ai, c.
Qed.

Lemma editImage_cases baseImage colorImage prompt tr r :
  runs (GeminiService.editImage baseImage colorImage prompt) tr r ->
  exists key,
    (exists e, tr = [CEnvApiKey key; CNewGoogleGenAI key (Thrown e)] /\ r = Thrown e) \/
    exists ai c,
      tr = [CEnvApiKey key; CNewGoogleGenAI key (Normal ai);
            CGenerateContent ai
              (GeminiService.editImage_params baseImage colorImage prompt) c] /\
      r = image_outcome "No edited image data returned" c.
Proof.
  intros H. apply editImage_runs in H as (key & [H | (ai & c & H)]); exists key.
  - now left.
  - right. now exists ai, c.
Qed.

Lemma Forall_eq_normal (ai : Sdk.GoogleGenAI) l :
  Forall (eq ai) l -> Forall (fun a => Normal ai = Normal a) l.
Proof. intros H. eapply Forall_impl; [| exact H]. now intros a ->. Qed.

(** X1.  [generateImage], [editImage] and [animateImage] each work on one
    fresh client: the execution starts by reading [process.env.API_KEY]
    and constructing a [GoogleGenAI] on that key, no other client is
    constructed, every SDK call (also each poll) is made on the client
    that construction returned, and when the construction throws the
    function rejects with that error having made no SDK call. *)
Theorem service_on_fresh_client
    prompt size aspectRatio baseImage colorImage imageBase64 tr r :
  (runs (GeminiService.generateImage prompt size aspectRatio) tr r ->
   on_fresh_client tr r) /\
  (runs (GeminiService.editImage baseImage colorImage prompt) tr r ->
   on_fresh_client tr r) /\
  (runs (GeminiService.animateImage imageBase64 prompt aspectRatio) tr r ->
   on_fresh_client tr r).
Proof.
  split; [| split]; intros H.
  - apply generateImage_cases in H as (key & [(e & -> & ->) | (ai & c & -> & ->)]).
    + exists key, (Thrown e), []. repeat split; try constructor; congruence.
    + eexists key, (Normal ai), _.
      split; [reflexivity |]. split; [reflexivity |]. split.
      * cbn. constructor; [reflexivity | constructor].
      * intros e E. discriminate E.
  - apply editImage_cases in H as (key & [(e & -> & ->) | (ai & c & -> & ->)]).
    + exists key, (Thrown e), []. repeat split; try constructor; congruence.
    + eexists key, (Normal ai), _.
      split; [reflexivity |]. split; [reflexivity |]. split.
      * cbn. constructor; [reflexivity | constructor].
      * intros e E. discriminate E.
  - apply animateImage_shape in H as (key & [(e & -> & ->) | (ai & H)]).
    + exists key, (Thrown e), []. repeat split; try constructor; congruence.
    + cbv zeta in H. exists key, (Normal ai).
      destruct H as [(e & -> & ->) | (op & later & Hall & H)].
      * eexists. split; [reflexivity |]. split; [reflexivity |]. split.
        -- cbn. constructor; [reflexivity | constructor].
        -- intros e' E. discriminate E.
      * destruct (polls_facts ai op later) as (_ & Hk & _ & _ & Hu & _).
        destruct H as [(_ & e & -> & ->) | (_ & tail & -> & Hd)].
        -- eexists. split; [reflexivity |]. split; [| split].
           ++ cbn [client_keys flat_map app]. fold (client_keys
                (polls ai op later ++ [CSetTimeout 10000;
                   CGetVideosOperation ai (last later op) (Thrown e)])%list).
              now rewrite client_keys_app, Hk.
           ++ cbn [clients_used flat_map app]. constructor; [reflexivity |].
              fold (clients_used
                (polls ai op later ++ [CSetTimeout 10000;
                   CGetVideosOperation ai (last later op) (Thrown e)])%list).
              rewrite clients_used_app. apply Forall_app. split.
              ** now apply Forall_eq_normal.
              ** cbn. constructor; [reflexivity | constructor].
           ++ intros e' E. discriminate E.
        -- eexists. split; [reflexivity |]. split; [| split].
           ++ cbn [client_keys flat_map app].
              fold (client_keys (polls ai op later ++ tail)%list).
              rewrite client_keys_app, Hk.
              apply download_cases in Hd
                as [(_ & -> & _) | (link & k & _ & _ & [(e & -> & _) | [(v & e & -> & _) | (v & b & u & -> & _)]])];
                reflexivity.
           ++ cbn [clients_used flat_map app]. constructor; [reflexivity |].
              fold (clients_used (polls ai op later ++ tail)%list).
              rewrite clients_used_app. apply Forall_app. split.
              ** now apply Forall_eq_normal.
              ** apply download_cases in Hd
                   as [(_ & -> & _) | (link & k & _ & _ & [(e & -> & _) | [(v & e & -> & _) | (v & b & u & -> & _)]])];
                   constructor.
           ++ intros e' E. discriminate E.
Qed.

Lemma unrejected_at {A} tr (r : completion A) :
  unrejected A tr r ->
  forall pre c post e,
    tr = (pre ++ c :: post)%list -> rejection c = Some e ->
    post = [] /\ r = Thrown e.
Proof.
  intros H pre. revert tr H. induction pre as [| d pre IH]; intros tr H c post e -> Hc.
  - destruct H as [H _]. now rewrite Hc in H.
  - destruct H as [_ H]. eapply IH; eauto.
Qed.

Lemma unrejected_app {A} tr1 tr2 (r : completion A) :
  rejections tr1 = [] -> unrejected A tr2 r -> unrejected A (tr1 ++ tr2)%list r.
Proof.
  induction tr1 as [| c tr1 IH]; intros H1 H2; [exact H2 |].
  cbn in H1. cbn [app unrejected]. destruct (rejection c).
  - discriminate H1.
  - split; [exact I | now apply IH].
Qed.

Lemma snoc_assoc {A} (a : list A) x b t c :
  (a ++ x :: b ++ t ++ [c])%list = ((a ++ x :: b ++ t) ++ [c])%list.
Proof. rewrite <- app_assoc. cbn. now rewrite <- app_assoc. Qed.

(** X2.  The three service functions never go on after a failure and
    never change an error: a call that is rejected is the last call of the
    execution and the function rejects with the very same error; and an
    error the function ends on is either that of its last call or its own
    ('No image data returned from model', 'No edited image data returned',
    'Video generation failed'). *)
Theorem service_stops_at_rejection
    prompt size aspectRatio baseImage colorImage imageBase64 tr r :
  (runs (GeminiService.generateImage prompt size aspectRatio) tr r ->
   stops_at_rejection "No image data returned from model" tr r) /\
  (runs (GeminiService.editImage baseImage colorImage prompt) tr r ->
   stops_at_rejection "No edited image data returned" tr r) /\
  (runs (GeminiService.animateImage imageBase64 prompt aspectRatio) tr r ->
   stops_at_rejection "Video generation failed" tr r).
Proof.
  split; [| split]; intros H.
  - apply generateImage_cases in H as (key & [(e & -> & ->) | (ai & c & -> & ->)]).
    + split.
      * apply unrejected_at. cbn. auto.
      * intros e' [= <-]. left. now exists [CEnvApiKey key], (CNewGoogleGenAI key (Thrown e)).
    + split.
      * apply unrejected_at. cbn. destruct c; cbn; auto.
      * intros e E. destruct c as [response | e']; cbn in E.
        -- right. destruct (find carries_inline _); [discriminate E | now injection E].
        -- injection E as <-. left.
           now exists [CEnvApiKey key; CNewGoogleGenAI key (Normal ai)],
                 (CGenerateContent ai
                    (GeminiService.generateImage_params prompt size aspectRatio) (Thrown e')).
  - apply editImage_cases in H as (key & [(e & -> & ->) | (ai & c & -> & ->)]).
    + split.
      * apply unrejected_at. cbn. auto.
      * intros e' [= <-]. left. now exists [CEnvApiKey key], (CNewGoogleGenAI key (Thrown e)).
    + split.
      * apply unrejected_at. cbn. destruct c; cbn; auto.
      * intros e E. destruct c as [response | e']; cbn in E.
        -- right. destruct (find carries_inline _); [discriminate E | now injection E].
        -- injection E as <-. left.
           now exists [CEnvApiKey key; CNewGoogleGenAI key (Normal ai)],
                 (CGenerateContent ai
                    (GeminiService.editImage_params baseImage colorImage prompt) (Thrown e')).
  - apply animateImage_shape in H as (key & [(e & -> & ->) | (ai & H)]).
    { split.
      - apply unrejected_at. cbn. auto.
      - intros e' [= <-]. left.
        now exists [CEnvApiKey key], (CNewGoogleGenAI key (Thrown e)). }
    cbv zeta in H. destruct H as [(e & -> & ->) | (op & later & Hall & H)].
    { split.
      - apply unrejected_at. cbn. auto.
      - intros e' [= <-]. left. eexists (client_calls key ai), _. split; reflexivity. }
    destruct (polls_facts ai op later) as (Hr & _).
    destruct H as [(_ & e & -> & ->) | (_ & tail & -> & Hd)].
    { split.
      - apply unrejected_at. cbn [client_calls app unrejected rejection].
        split; [exact I |]. split; [exact I |]. split; [exact I |].
        apply unrejected_app; [exact Hr |]. cbn. auto.
      - intros e' [= <-]. left.
        eexists _, (CGetVideosOperation ai (last later op) (Thrown e)).
        split; [| reflexivity].
        apply (snoc_assoc (client_calls key ai) _ (polls ai op later) [CSetTimeout 10000]). }
    assert (Hpre : forall t,
               unrejected string t r ->
               unrejected string
                 (client_calls key ai
                    ++ CGenerateVideos ai
                         (GeminiService.animateImage_params imageBase64 prompt aspectRatio)
                         (Normal op)
                    :: polls ai op later ++ t)%list r).
    { intros t Ht. cbn [client_calls app unrejected rejection].
      split; [exact I |]. split; [exact I |]. split; [exact I |].
      now apply unrejected_app. }
    apply download_cases in Hd
      as [(_ & -> & ->) | (link & k & _ & _ & [(e & -> & ->) | [(v & e & -> & ->) | (v & b & u & -> & ->)]])].
    + split; [apply unrejected_at, Hpre; exact I |].
      intros e [= <-]. now right.
    + split; [apply unrejected_at, Hpre; cbn; auto |].
      intros e' [= <-]. left. eexists _, (CFetch _ (Thrown e)). split; [| reflexivity].
      apply (snoc_assoc (client_calls key ai) _ (polls ai op later) [CEnvApiKey k]).
    + split; [apply unrejected_at, Hpre; cbn; auto |].
      intros e' [= <-]. left. eexists _, (CResponseBlob v (Thrown e)). split; [| reflexivity].
      apply (snoc_assoc (client_calls key ai) _ (polls ai op later)
               [CEnvApiKey k; CFetch _ (Normal v)]).
    + split; [apply unrejected_at, Hpre; cbn; auto |].
      intros e E. discriminate E.
Qed.

(** X3.  Whatever the model answers, a URL that [generateImage] or
    [editImage] returns is a PNG data URL: 'data:image/png;base64,'
    followed by the data of the first part of the first candidate that
    carries inline data, 'undefined' when that part has no data.  The
    MIME type the part itself carries is not looked at. *)
Theorem image_url_is_png_data_url
    prompt size aspectRatio baseImage colorImage tr url :
  (runs (GeminiService.generateImage prompt size aspectRatio) tr (Normal url) ->
   exists key ai response part blob,
     tr = (client_calls key ai
             ++ [CGenerateContent ai
                   (GeminiService.generateImage_params prompt size aspectRatio)
                   (Normal response)])%list /\
     find carries_inline (first_candidate_parts response) = Some part /\
     Sdk.inlineData part = Some blob /\
     url = "data:image/png;base64," ++ interpolate (Sdk.data blob)) /\
  (runs (GeminiService.editImage baseImage colorImage prompt) tr (Normal url) ->
   exists key ai response part blob,
     tr = (client_calls key ai
             ++ [CGenerateContent ai
                   (GeminiService.editImage_params baseImage colorImage prompt)
                   (Normal response)])%list /\
     find carries_inline (first_candidate_parts response) = Some part /\
     Sdk.inlineData part = Some blob /\
     url = "data:image/png;base64," ++ interpolate (Sdk.data blob)).
Proof.
  assert (Hout : forall msg c,
             image_outcome msg c = Normal url ->
             exists response part blob,
               c = Normal response /\
               find carries_inline (first_candidate_parts response) = Some part /\
               Sdk.inlineData part = Some blob /\
               url = "data:image/png;base64," ++ interpolate (Sdk.data blob)).
  { intros msg [response | e] E; [| discriminate E]. unfold image_outcome in E.
    rewrite response_parts_first_candidate in E.
    destruct (find carries_inline _) as [part |] eqn:Hf; [| discriminate E].
    pose proof (find_some _ _ Hf) as [_ Hc]. unfold carries_inline in Hc.
    destruct (Sdk.inlineData part) as [blob |] eqn:Hb; [| discriminate Hc].
    injection E as <-. now exists response, part, blob. }
  split; intros H.
  - apply generateImage_runs in H as (key & [(e & _ & E) | (ai & c & -> & E)]);
      [discriminate E |].
    symmetry in E. apply Hout in E as (response & part & blob & -> & Hin & Hb & ->).
    now exists key, ai, response, part, blob.
  - apply editImage_runs in H as (key & [(e & _ & E) | (ai & c & -> & E)]);
      [discriminate E |].
    symmetry in E. apply Hout in E as (response & part & blob & -> & Hin & Hb & ->).
    now exists key, ai, response, part, blob.
Qed.

(** *** Waits and polls *)

Lemma pending_received_app tr1 tr2 :
  pending_received (tr1 ++ tr2)%list = pending_received tr1 + pending_received tr2.
Proof.
  induction tr1 as [| c tr1 IH]; [reflexivity |].
  destruct c; cbn; rewrite ?IH; try reflexivity;
    match goal with
    | |- context [match ?a with Normal _ => _ | Thrown _ => _ end] => destruct a
    end; rewrite ?IH; lia.
Qed.

(** The operations of a loop, counted: all but the last are not done. *)
Lemma pending_received_polls ai later :
  forall op,
    Forall (fun o => ~ is_done o) (removelast (op :: later)) ->
    (if truthy_flag (Sdk.done op) then 0 else 1) + pending_received (polls ai op later)
    = length later + (if truthy_flag (Sdk.done (last later op)) then 0 else 1).
Proof.
  induction later as [| op' later IH]; intros op Hall; [cbn; lia |].
  rewrite removelast_cons2 in Hall. inversion Hall as [| ? ? Hop Hall']; subst.
  apply not_done_truthy in Hop. rewrite Hop, last_cons.
  cbn [polls pending_received length]. rewrite (IH op' Hall'). lia.
Qed.

(** X4.  In every finished execution of [animateImage] the client waits
    10 seconds for each poll, and polls once for each operation it
    received that was not done: when [generateVideos] answers with an
    operation that is done already, it neither waits nor polls. *)
Theorem animateImage_waits imageBase64 prompt aspectRatio tr r :
  runs (GeminiService.animateImage imageBase64 prompt aspectRatio) tr r ->
  total_wait tr = (10000 * Z.of_nat (poll_count tr))%Z /\
  poll_count tr = pending_received tr /\
  (forall pre ai params op post,
      tr = (pre ++ CGenerateVideos ai params (Normal op) :: post)%list ->
      is_done op ->
      poll_count tr = 0 /\ total_wait tr = 0%Z).
Proof.
  intros H.
  assert (Hcount : total_wait tr = (10000 * Z.of_nat (poll_count tr))%Z /\
                   poll_count tr = pending_received tr /\
                   forall ai params op,
                     In (CGenerateVideos ai params (Normal op)) tr -> is_done op ->
                     poll_count tr = 0).
  { apply animateImage_shape in H as (key & [(e & -> & _) | (ai & H)]).
    { cbn. repeat split. }
    cbv zeta in H. destruct H as [(e & -> & _) | (op & later & Hall & H)].
    { cbn. repeat split. }
    destruct (polls_facts ai op later) as (_ & _ & _ & _ & _ & Hp & Hw).
    pose proof (pending_received_polls ai later op Hall) as Hpend.
    assert (Hfirst : forall ai' params' op' t,
               (forall a p o, ~ In (CGenerateVideos a p (Normal o)) t) ->
               In (CGenerateVideos ai' params' (Normal op'))
                  (client_calls key ai
                     ++ CGenerateVideos ai
                          (GeminiService.animateImage_params imageBase64 prompt aspectRatio)
                          (Normal op)
                     :: polls ai op later ++ t)%list ->
               op' = op).
    { intros ai' params' op' t Ht [E | [E | [E | Hin]]]; try discriminate E.
      - now injection E.
      - apply in_app_or in Hin as [Hin | Hin]; [| now apply Ht in Hin].
        exfalso. clear - Hin. revert op Hin.
        induction later as [| o later IH]; intros op Hin; [exact Hin |].
        destruct Hin as [E | [E | Hin]]; try discriminate E. eauto. }
    assert (Hzero : is_done op -> later = []).
    { intros Hd. destruct later as [| o later]; [reflexivity |].
      rewrite removelast_cons2 in Hall. inversion Hall; subst. contradiction. }
    destruct H as [(Hnot & e & -> & _) | (Hdone & tail & -> & Hd)].
    - apply not_done_truthy in Hnot. rewrite Hnot in Hpend.
      cbn [client_calls app total_wait poll_count pending_received].
      rewrite total_wait_app, poll_count_app, pending_received_app, Hp, Hw.
      cbn [total_wait poll_count pending_received]. split; [lia |]. split; [lia |].
      intros ai' params' op' Hin Hd'.
      apply Hfirst in Hin.
      + subst op'. pose proof (Hzero Hd') as El. subst later. cbn in Hnot.
        apply is_done_truthy in Hd'. congruence.
      + intros a p o [E | [E | []]]; discriminate E.
    - apply is_done_truthy in Hdone. rewrite Hdone in Hpend.
      assert (Htail : total_wait tail = 0%Z /\ poll_count tail = 0 /\
                      pending_received tail = 0 /\
                      forall a p o, ~ In (CGenerateVideos a p (Normal o)) tail).
      { apply download_cases in Hd
          as [(_ & -> & _) | (link & k & _ & _ & [(e & -> & _) | [(v & e & -> & _) | (v & b & u & -> & _)]])];
          cbn; repeat split; intros a p o Hin;
          repeat (destruct Hin as [E | Hin]; [discriminate E |]); exact Hin. }
      destruct Htail as (Ht1 & Ht2 & Ht3 & Ht4).
      cbn [client_calls app total_wait poll_count pending_received].
      rewrite total_wait_app, poll_count_app, pending_received_app, Hp, Hw, Ht1, Ht2, Ht3.
      split; [lia |]. split; [lia |].
      intros ai' params' op' Hin Hd'. apply (Hfirst _ _ _ _ Ht4) in Hin. subst op'.
      rewrite (Hzero Hd'). reflexivity. }
  destruct Hcount as (Hw & Hp & Hz). split; [exact Hw |]. split; [exact Hp |].
  intros pre ai params op post E Hd.
  assert (Hin : In (CGenerateVideos ai params (Normal op)) tr).
  { rewrite E. apply in_or_app. right. now left. }
  pose proof (Hz _ _ _ Hin Hd) as H0. split; [exact H0 |]. rewrite Hw, H0. reflexivity.
Qed.

(** ** The video request, and images that are not data URLs *)

(** X5.  [animateImage], called on an image that is a base64 data URL,
    sends one [generateVideos] request: to 'veo-3.1-fast-generate-preview',
    with the base64 payload of the image as image bytes of type
    'image/png', one video, at 1080p, and as prompt the prompt it was
    given, or 'Cinematic animation of this scene' when that is empty. *)
Theorem animateImage_request mime payload prompt aspectRatio tr r :
  comma_free mime = true -> comma_free payload = true ->
  runs (GeminiService.animateImage (data_url mime payload) prompt aspectRatio) tr r ->
  (exists key e, tr = [CEnvApiKey key; CNewGoogleGenAI key (Thrown e)]) \/
  (exists params,
      video_requests tr = [params] /\
      Sdk.videoModel params = "veo-3.1-fast-generate-preview" /\
      Sdk.videoImage params =
        {| Sdk.imageBytes := Some payload; Sdk.imageMimeType := Some "image/png" |} /\
      Sdk.numberOfVideos (Sdk.videoConfig params) = 1%Z /\
      Sdk.resolution (Sdk.videoConfig params) = "1080p" /\
      (prompt <> "" -> Sdk.videoPrompt params = prompt) /\
      (prompt = "" -> Sdk.videoPrompt params = "Cinematic animation of this scene")).
Proof.
  intros Hm Hp H.
  destruct (animateImage_requests _ _ _ _ _ H) as [Hno | Hreq]; [now left | right].
  eexists. split; [exact Hreq |]. split; [reflexivity |].
  cbn [GeminiService.animateImage_params Sdk.videoImage Sdk.videoConfig
       Sdk.numberOfVideos Sdk.resolution Sdk.videoPrompt].
  rewrite (after_comma_data_url _ _ Hm Hp).
  repeat split.
  - intros Hne. destruct prompt; [now elim Hne | reflexivity].
  - intros ->. reflexivity.
Qed.

Lemma animateImage_request_witness :
  (comma_free "image/png" = true /\ comma_free "iVBORw0KGgo=" = true /\
   runs (GeminiService.animateImage Sample.base "" AR_9_16)
        Sample.animation_trace (Normal Sample.url)) /\
  exists params,
    video_requests Sample.animation_trace = [params] /\
    Sdk.videoImage params =
      {| Sdk.imageBytes := Some "iVBORw0KGgo="; Sdk.imageMimeType := Some "image/png" |} /\
    Sdk.videoPrompt params = "Cinematic animation of this scene".
Proof.
  split; [repeat split; exact sample_animation_runs |].
  destruct (animateImage_request "image/png" "iVBORw0KGgo=" "" AR_9_16
              Sample.animation_trace (Normal Sample.url) eq_refl eq_refl
              sample_animation_runs)
    as [(key & e & E) | (params & Hreq & _ & Himg & _ & _ & _ & Hp)]; [discriminate E |].
  exists params. split; [exact Hreq |]. split; [exact Himg | exact (Hp eq_refl)].
Defined.




(** ** The key check *)

Lemma logged_false_runs e tr c :
  runs (perform (ConsoleError "API Key selection error" e) ;;; resolve false)%async tr c <->
  tr = [CConsoleError "API Key selection error" e] /\ c = Normal false.
Proof.
  split.
  - intros H. apply runs_await_inv in H as [(e' & H & _) | (t1 & a & t2 & -> & H & H')].
    + apply runs_perform in H as (a & _ & E). discriminate E.
    + apply runs_perform in H as (a' & -> & _). apply runs_resolve in H' as [-> ->].
      now split.
  - intros [-> ->].
    change [CConsoleError "API Key selection error" e]
      with ([CConsoleError "API Key selection error" e] ++ [])%list.
    eapply runs_await; [apply runs_perform; now exists tt | now apply runs_resolve].
Qed.

Lemma checkApiKey_cases tr c :
  runs App.checkApiKey tr c <->
  (tr = [CHasSelectedApiKey (Normal true)] /\ c = Normal true) \/
  (tr = [CHasSelectedApiKey (Normal false); COpenSelectKey (Normal tt)] /\
   c = Normal true) \/
  (exists e,
      tr = [CHasSelectedApiKey (Normal false); COpenSelectKey (Thrown e);
            CConsoleError "API Key selection error" e] /\
      c = Normal false) \/
  (exists e,
      tr = [CHasSelectedApiKey (Thrown e);
            CConsoleError "API Key selection error" e] /\
      c = Normal false).
Proof.
  unfold App.checkApiKey. split.
  - intros H. apply runs_bind_inv in H as (tr1 & c1 & tr2 & -> & H1 & H2).
    apply runs_await_inv in H1 as [(e & H1 & ->) | (t1 & hasKey & t2 & -> & H1 & H3)].
    + apply runs_call in H1 as ->. apply logged_false_runs in H2 as [-> ->].
      right. right. right. now exists e.
    + apply runs_call in H1. subst t1. destruct hasKey; cbn [negb] in H3.
      * apply runs_await_inv in H3 as [(e & H3 & _) | (t3 & u & t4 & -> & H3 & H4)].
        { apply runs_resolve in H3 as [_ E]. discriminate E. }
        apply runs_resolve in H3 as [-> _]. apply runs_resolve in H4 as [-> ->].
        apply runs_resolve in H2 as [-> ->]. left. now split.
      * apply runs_await_inv in H3 as [(e & H3 & ->) | (t3 & u & t4 & -> & H3 & H4)].
        -- apply runs_call in H3 as ->. apply logged_false_runs in H2 as [-> ->].
           right. right. left. now exists e.
        -- apply runs_call in H3. subst t3. destruct u.
           apply runs_resolve in H4 as [-> ->]. apply runs_resolve in H2 as [-> ->].
           right. left. now split.
  - intros [(-> & ->) | [(-> & ->) | [(e & -> & ->) | (e & -> & ->)]]].
    + change [CHasSelectedApiKey (Normal true)]
        with (([CHasSelectedApiKey (Normal true)] ++ [] ++ []) ++ [])%list.
      eapply runs_bind with (x := Normal true); [| now apply runs_resolve].
      eapply runs_await; [now apply runs_call |]. cbn [negb].
      eapply runs_await; now apply runs_resolve.
    + change [CHasSelectedApiKey (Normal false); COpenSelectKey (Normal tt)]
        with (([CHasSelectedApiKey (Normal false)] ++ [COpenSelectKey (Normal tt)] ++ [])
                ++ [])%list.
      eapply runs_bind with (x := Normal true); [| now apply runs_resolve].
      eapply runs_await; [now apply runs_call |]. cbn [negb].
      eapply runs_await; [now apply runs_call | now apply runs_resolve].
    + change [CHasSelectedApiKey (Normal false); COpenSelectKey (Thrown e);
              CConsoleError "API Key selection error" e]
        with (([CHasSelectedApiKey (Normal false)] ++ [COpenSelectKey (Thrown e)])
                ++ [CConsoleError "API Key selection error" e])%list.
      eapply runs_bind with (x := Thrown e); [| now apply logged_false_runs].
      eapply runs_await; [now apply runs_call |]. cbn [negb].
      apply runs_await_thrown. now apply runs_call.
    + change [CHasSelectedApiKey (Thrown e); CConsoleError "API Key selection error" e]
        with ([CHasSelectedApiKey (Thrown e)]
                ++ [CConsoleError "API Key selection error" e])%list.
      eapply runs_bind with (x := Thrown e); [| now apply logged_false_runs].
      apply runs_await_thrown. now apply runs_call.
Qed.

(** X8.  [checkApiKey] never rejects.  It resolves to [true] exactly when
    neither AI Studio call was rejected; it asks for a key
    ([openSelectKey]) once, exactly when [hasSelectedApiKey] resolved to
    [false], and never otherwise; and what a call was rejected with is
    passed to [console.error], once, before it resolves to [false]. *)
Theorem checkApiKey_behaviour tr c :
  runs App.checkApiKey tr c ->
  exists ok,
    c = Normal ok /\
    (ok = true <-> rejections tr = []) /\
    logged tr = rejections tr /\
    length (rejections tr) <= 1 /\
    (key_prompts tr = 1 <-> In (CHasSelectedApiKey (Normal false)) tr) /\
    (key_prompts tr = 0 <-> ~ In (CHasSelectedApiKey (Normal false)) tr).
Proof.
  intros H.
  apply checkApiKey_cases in H
    as [(-> & ->) | [(-> & ->) | [(e & -> & ->) | (e & -> & ->)]]].
  - exists true. cbn. repeat split; auto; try lia; try discriminate.
    + intros [E | []]. discriminate E.
    + intros _ [E | []]. discriminate E.
  - exists true. cbn. repeat split; auto; try lia; try discriminate.
    intros Hn. exfalso. apply Hn. now left.
  - exists false. cbn. repeat split; auto; try lia; try discriminate.
    intros Hn. exfalso. apply Hn. now left.
  - exists false. cbn. repeat split; auto; try lia; try discriminate.
    + intros [E | [E | []]]; discriminate E.
    + intros _ [E | [E | []]]; discriminate E.
Qed.

Lemma checkApiKey_behaviour_witness :
  runs App.checkApiKey
       [CHasSelectedApiKey (Normal false); COpenSelectKey (Thrown (mkError "dismissed"));
        CConsoleError "API Key selection error" (mkError "dismissed")]
       (Normal false) /\
  logged [CHasSelectedApiKey (Normal false); COpenSelectKey (Thrown (mkError "dismissed"));
          CConsoleError "API Key selection error" (mkError "dismissed")]
  = [mkError "dismissed"].
Proof.
  assert (H : runs App.checkApiKey
                [CHasSelectedApiKey (Normal false);
                 COpenSelectKey (Thrown (mkError "dismissed"));
                 CConsoleError "API Key selection error" (mkError "dismissed")]
                (Normal false)).
  { apply checkApiKey_cases. right. right. left. now exists (mkError "dismissed"). }
  split; [exact H |].
  destruct (checkApiKey_behaviour _ _ H) as (ok & _ & _ & Hl & _).
  rewrite Hl. reflexivity.
Defined.

(** ** The run handlers, in full *)

Lemma on_failure_cases fallback err st tr st' c :
  runs (App.on_failure fallback err st) tr (st', c) <->
  st' = App.with_error (Some (or_else (message err) fallback)) st /\
  if includes not_found_text (message err)
  then tr = [COpenSelectKey c]
  else tr = [] /\ c = Normal tt.
Proof.
  unfold App.on_failure, not_found_text. rewrite runs_seq. split.
  - intros (tr1 & st1 & c1 & tr2 & -> & H1 & H).
    apply runs_set in H1 as [-> E]. injection E as -> ->.
    destruct (includes "Requested entity was not found" (message err)).
    + apply runs_awaiting in H as (c' & H & E). injection E as -> ->.
      apply runs_call in H as ->. now split.
    + apply runs_Ret in H as [-> E]. injection E as -> ->. now repeat split.
  - intros [-> H].
    destruct (includes "Requested entity was not found" (message err)).
    + subst tr. eexists [], _, (Normal tt), _. split; [reflexivity |].
      split; [apply runs_set; split; reflexivity |].
      apply runs_awaiting. exists c. split; [now apply runs_call | reflexivity].
    + destruct H as [-> ->]. eexists [], _, (Normal tt), []. split; [reflexivity |].
      split; [apply runs_set; split; reflexivity |]. now apply runs_Ret.
Qed.

(** Every execution of a run handler past its guard, and only those. *)
Lemma guarded_run_cases label service type assetPrompt fallback st tr st' c :
  runs (guarded_run label service type assetPrompt fallback st) tr (st', c) <->
  exists tr_key ok tr_service result tr_rest,
    tr = (tr_key ++ tr_service ++ tr_rest)%list /\
    runs App.checkApiKey tr_key (Normal ok) /\
    runs service tr_service result /\
    match result with
    | Normal url =>
        exists id timestamp,
        tr_rest = [CRandomId id; CDateNow timestamp] /\
        st' = run_succeeded label url type assetPrompt id timestamp st /\
        c = Normal tt
    | Thrown err =>
        st' = run_failed label fallback err st /\
        if includes not_found_text (message err)
        then tr_rest = [COpenSelectKey c]
        else tr_rest = [] /\ c = Normal tt
    end.
Proof.
  unfold guarded_run. split.
  - intros H.
    apply runs_seq in H as (tr1 & st1 & c1 & tr2 & -> & H1 & H).
    apply runs_set in H1 as [-> E]. injection E as -> ->.
    apply runs_seq in H as (tr1 & st1 & c1 & tr3 & -> & H1 & H).
    apply runs_set in H1 as [-> E]. injection E as -> ->.
    apply runs_seq in H as (tr1 & st1 & c1 & tr4 & -> & H1 & H).
    apply runs_set in H1 as [-> E]. injection E as -> ->.
    cbn [app].
    apply runs_try_catch_finally in H
      as (tb & sb & cb & tc & sc & cc & tf & sf & cf & -> & Hb & Hc & Hf & E).
    injection E as -> ->.
    apply runs_set in Hf. destruct Hf as [-> E]. injection E as -> ->.
    apply runs_seq in Hb as (tr_key & s1 & c_key & tr' & -> & Hkey & Hb).
    apply runs_awaiting in Hkey as (c_key' & Hkey & E). injection E as -> ->.
    destruct (checkApiKey_resolves _ _ Hkey) as (ok & ->).
    apply runs_seq in Hb as (tr_service & s2 & c_service & tr_rest & -> & Hsvc & Hb).
    apply runs_awaiting in Hsvc as (result & Hsvc & E). injection E as -> ->.
    destruct result as [url | err].
    + apply addAsset_runs in Hb as (id & timestamp & -> & E). injection E as -> ->.
      destruct Hc as (-> & -> & ->). rewrite !app_nil_r, <- ?app_assoc.
      exists tr_key, ok, tr_service, (Normal url), [CRandomId id; CDateNow timestamp].
      split; [reflexivity |]. split; [exact Hkey |]. split; [exact Hsvc |].
      exists id, timestamp. now repeat split.
    + destruct Hb as [-> E]. injection E as -> ->.
      apply on_failure_cases in Hc as [-> Hc]. rewrite !app_nil_r, <- ?app_assoc.
      exists tr_key, ok, tr_service, (Thrown err), tc.
      split; [reflexivity |]. split; [exact Hkey |]. split; [exact Hsvc |].
      split; [reflexivity | exact Hc].
  - intros (tr_key & ok & tr_service & result & tr_rest & -> & Hkey & Hsvc & H).
    apply runs_seq. eexists [], _, (Normal tt), _. split; [reflexivity |].
    split; [apply runs_set; split; reflexivity |].
    apply runs_seq. eexists [], _, (Normal tt), _. split; [reflexivity |].
    split; [apply runs_set; split; reflexivity |].
    apply runs_seq. eexists [], _, (Normal tt), _. split; [reflexivity |].
    split; [apply runs_set; split; reflexivity |].
    apply runs_try_catch_finally.
    assert (Hbody : forall rest out,
               match result with
               | Normal url =>
                   runs (App.addAsset url type assetPrompt (run_started label st)) rest out
               | Thrown e => rest = [] /\ out = (run_started label st, Thrown e)
               end ->
               runs (App.seq (App.awaiting App.checkApiKey)
                       (fun _ => App.seq (App.awaiting service)
                                   (fun url => App.addAsset url type assetPrompt))
                       (run_started label st))
                    (tr_key ++ tr_service ++ rest)%list out).
    { intros rest out Hrest.
      apply runs_seq. eexists tr_key, _, (Normal ok), _. split; [reflexivity |].
      split; [apply runs_awaiting; eexists; split; [exact Hkey | reflexivity] |].
      apply runs_seq. eexists tr_service, _, result, rest. split; [reflexivity |].
      split; [apply runs_awaiting; eexists; split; [exact Hsvc | reflexivity] |].
      exact Hrest. }
    destruct result as [url | err].
    + destruct H as (id & timestamp & -> & -> & ->).
      eexists (tr_key ++ tr_service ++ [CRandomId id; CDateNow timestamp])%list,
        _, (Normal tt), [], _, (Normal tt), [], _, (Normal tt).
      split; [now rewrite !app_nil_r |]. split.
      { apply Hbody. apply addAsset_runs. exists id, timestamp. split; reflexivity. }
      split; [now repeat split |]. split; [apply runs_set; split; reflexivity |].
      reflexivity.
    + destruct H as [-> H].
      eexists (tr_key ++ tr_service ++ [])%list,
        _, (Thrown err), tr_rest, _, c, [], _, (Normal tt).
      split; [now rewrite !app_nil_r, <- app_assoc |]. split.
      { apply Hbody. split; reflexivity. }
      split; [apply on_failure_cases; split; [reflexivity | exact H] |].
      split; [apply runs_set; split; reflexivity |]. reflexivity.
Qed.

Lemma runGeneration_guarded st :
  App.prompt st <> "" ->
  App.runGeneration st =
  guarded_run "Synthesizing your imagination..."
    (GeminiService.generateImage (App.prompt st) (App.size st) (App.aspectRatio st))
    image (App.prompt st) "Generation failed" st.
Proof.
  intros H. unfold App.runGeneration.
  destruct (App.prompt st) as [| a p]; [now elim H | reflexivity].
Qed.

Lemma runEditing_guarded st baseImage colorImage :
  App.baseImage st = Some baseImage -> App.colorImage st = Some colorImage ->
  baseImage <> "" -> colorImage <> "" ->
  App.runEditing st =
  guarded_run "Blending visuals and styles..."
    (GeminiService.editImage baseImage colorImage (App.prompt st))
    image (or_else (App.prompt st) "Styled Blend") "Editing failed" st.
Proof.
  intros Eb Ec Hb Hc. unfold App.runEditing. rewrite Eb, Ec.
  destruct baseImage; [now elim Hb |]. destruct colorImage; [now elim Hc |]. reflexivity.
Qed.

Lemma runAnimation_guarded st animateImage :
  App.animateImage st = Some animateImage -> animateImage <> "" ->
  App.runAnimation st =
  guarded_run "Breathing life into your pixels (this may take a minute)..."
    (GeminiService.animateImage animateImage (App.prompt st) (App.aspectRatio st))
    video (or_else (App.prompt st) "Cinematic Motion") "Animation failed" st.
Proof.
  intros Ea Ha. unfold App.runAnimation. rewrite Ea.
  destruct animateImage; [now elim Ha | reflexivity].
Qed.

Lemma guarded_run_goes_through h label service type assetPrompt fallback st :
  h st = guarded_run label service type assetPrompt fallback st ->
  goes_through_with h label service type assetPrompt fallback st.
Proof.
  intros E tr_key ok tr_service Hkey. rewrite E. split; [| split].
  - intros url id timestamp Hsvc. apply guarded_run_cases.
    exists tr_key, ok, tr_service, (Normal url), [CRandomId id; CDateNow timestamp].
    split; [reflexivity |]. split; [exact Hkey |]. split; [exact Hsvc |].
    now exists id, timestamp.
  - intros err Hsvc Hinc. apply guarded_run_cases.
    exists tr_key, ok, tr_service, (Thrown err), [].
    split; [now rewrite app_nil_r |]. split; [exact Hkey |]. split; [exact Hsvc |].
    split; [reflexivity |]. rewrite Hinc. now split.
  - intros err c Hsvc Hinc. apply guarded_run_cases.
    exists tr_key, ok, tr_service, (Thrown err), [COpenSelectKey c].
    split; [reflexivity |]. split; [exact Hkey |]. split; [exact Hsvc |].
    split; [reflexivity |]. now rewrite Hinc.
Qed.

(** X9.  A run handler that is past its guard goes through with the run
    whatever the key check said, also when it resolved to [false]: once
    the key check and the service call have finished, the handler
    finishes.  On a URL it stores the asset under a drawn id and time
    stamp; on an error whose message does not include 'Requested entity
    was not found' it ends normally with the error shown; on one that
    does, it asks for a key and ends as that request does. *)
Theorem run_goes_through st :
  (App.prompt st <> "" ->
   goes_through_with App.runGeneration "Synthesizing your imagination..."
     (GeminiService.generateImage (App.prompt st) (App.size st) (App.aspectRatio st))
     image (App.prompt st) "Generation failed" st) /\
  (forall baseImage colorImage,
      App.baseImage st = Some baseImage -> App.colorImage st = Some colorImage ->
      baseImage <> "" -> colorImage <> "" ->
      goes_through_with App.runEditing "Blending visuals and styles..."
        (GeminiService.editImage baseImage colorImage (App.prompt st))
        image (or_else (App.prompt st) "Styled Blend") "Editing failed" st) /\
  (forall animateImage,
      App.animateImage st = Some animateImage -> animateImage <> "" ->
      goes_through_with App.runAnimation
        "Breathing life into your pixels (this may take a minute)..."
        (GeminiService.animateImage animateImage (App.prompt st) (App.aspectRatio st))
        video (or_else (App.prompt st) "Cinematic Motion") "Animation failed" st).
Proof.
  split; [| split].
  - intros H. apply guarded_run_goes_through. now apply runGeneration_guarded.
  - intros b c Eb Ec Hb Hc. apply guarded_run_goes_through.
    now apply runEditing_guarded.
  - intros a Ea Ha. apply guarded_run_goes_through. now apply runAnimation_guarded.
Qed.

Lemma guarded_run_ends_quietly label service type assetPrompt fallback st tr st' c :
  runs (guarded_run label service type assetPrompt fallback st) tr (st', c) ->
  ends_quietly service tr c.
Proof.
  intros H.
  apply guarded_run_cases in H
    as (tr_key & ok & tr_service & result & tr_rest & -> & Hkey & Hsvc & H).
  exists tr_key, ok, tr_service, result, tr_rest.
  split; [reflexivity |]. split; [exact Hkey |]. split; [exact Hsvc |].
  destruct result as [url | err].
  - destruct H as (id & timestamp & -> & _ & ->). now split.
  - destruct H as [_ H].
    destruct (includes not_found_text (message err)) eqn:Hinc.
    + left. split; [now apply includes_spec | exact H].
    + right. split; [| exact H].
      intros Hex. apply includes_spec in Hex. congruence.
Qed.

(** X10.  A run handler never passes a failure of the service on to its
    caller.  Past its guard, it asks for a key again
    ([window.aistudio.openSelectKey]) exactly when the service threw an
    error whose message contains 'Requested entity was not found', and it
    rejects only when that request is rejected; in every other case it
    ends normally.  What the service throws is an [Error] with a string
    message, as everything here that is thrown is. *)
Theorem run_ends_quietly st tr st' c :
  (App.prompt st <> "" ->
   runs (App.runGeneration st) tr (st', c) ->
   ends_quietly
     (GeminiService.generateImage (App.prompt st) (App.size st) (App.aspectRatio st))
     tr c) /\
  (forall baseImage colorImage,
      App.baseImage st = Some baseImage -> App.colorImage st = Some colorImage ->
      baseImage <> "" -> colorImage <> "" ->
      runs (App.runEditing st) tr (st', c) ->
      ends_quietly (GeminiService.editImage baseImage colorImage (App.prompt st)) tr c) /\
  (forall animateImage,
      App.animateImage st = Some animateImage -> animateImage <> "" ->
      runs (App.runAnimation st) tr (st', c) ->
      ends_quietly
        (GeminiService.animateImage animateImage (App.prompt st) (App.aspectRatio st))
        tr c).
Proof.
  split; [| split].
  - intros Hp H. rewrite (runGeneration_guarded st Hp) in H.
    exact (guarded_run_ends_quietly _ _ _ _ _ _ _ _ _ H).
  - intros b c' Eb Ec Hb Hc H. rewrite (runEditing_guarded st b c' Eb Ec Hb Hc) in H.
    exact (guarded_run_ends_quietly _ _ _ _ _ _ _ _ _ H).
  - intros a Ea Ha H. rewrite (runAnimation_guarded st a Ea Ha) in H.
    exact (guarded_run_ends_quietly _ _ _ _ _ _ _ _ _ H).
Qed.

(** ** What a run leaves alone, and what it calls *)

Lemma runGeneration_cases st tr st' c :
  runs (App.runGeneration st) tr (st', c) ->
  (tr = [] /\ st' = App.with_error (Some "Please enter a prompt") st /\ c = Normal tt) \/
  (App.prompt st <> "" /\
   runs (guarded_run "Synthesizing your imagination..."
           (GeminiService.generateImage (App.prompt st) (App.size st)
              (App.aspectRatio st))
           image (App.prompt st) "Generation failed" st) tr (st', c)).
Proof.
  intros H. destruct (App.prompt st) as [| a p] eqn:E.
  - left. unfold App.runGeneration in H. rewrite E in H.
    apply runs_set in H as [-> [= -> ->]]. now repeat split.
  - right. split; [discriminate |]. rewrite <- E.
    rewrite <- runGeneration_guarded; [exact H | rewrite E; discriminate].
Qed.

Lemma runEditing_cases st tr st' c :
  runs (App.runEditing st) tr (st', c) ->
  (tr = [] /\ st' = App.with_error (Some "Please upload both images") st /\
   c = Normal tt) \/
  (exists baseImage colorImage,
      App.baseImage st = Some baseImage /\ App.colorImage st = Some colorImage /\
      baseImage <> "" /\ colorImage <> "" /\
      runs (guarded_run "Blending visuals and styles..."
              (GeminiService.editImage baseImage colorImage (App.prompt st))
              image (or_else (App.prompt st) "Styled Blend") "Editing failed" st)
           tr (st', c)).
Proof.
  intros H.
  assert (Hg : runs (App.setError (Some "Please upload both images") st) tr (st', c) ->
               tr = [] /\ st' = App.with_error (Some "Please upload both images") st /\
               c = Normal tt).
  { intros G. apply runs_set in G as [-> [= -> ->]]. now repeat split. }
  destruct (App.baseImage st) as [b |] eqn:Eb, (App.colorImage st) as [k |] eqn:Ek.
  - destruct b as [| b1 b2] eqn:Hb; [| destruct k as [| k1 k2] eqn:Hk].
    + left. apply Hg. unfold App.runEditing in H. now rewrite Eb, Ek in H.
    + left. apply Hg. unfold App.runEditing in H. now rewrite Eb, Ek in H.
    + right. exists b, k. subst b k.
      split; [reflexivity |]. split; [reflexivity |].
      split; [discriminate |]. split; [discriminate |].
      rewrite <- (runEditing_guarded st _ _ Eb Ek); [exact H | discriminate ..].
  - left. apply Hg. unfold App.runEditing in H. now rewrite Eb, Ek in H.
  - left. apply Hg. unfold App.runEditing in H. now rewrite Eb in H.
  - left. apply Hg. unfold App.runEditing in H. now rewrite Eb in H.
Qed.

Lemma runAnimation_cases st tr st' c :
  runs (App.runAnimation st) tr (st', c) ->
  (tr = [] /\ st' = App.with_error (Some "Please upload an image to animate") st /\
   c = Normal tt) \/
  (exists animateImage,
      App.animateImage st = Some animateImage /\ animateImage <> "" /\
      runs (guarded_run "Breathing life into your pixels (this may take a minute)..."
              (GeminiService.animateImage animateImage (App.prompt st)
                 (App.aspectRatio st))
              video (or_else (App.prompt st) "Cinematic Motion") "Animation failed" st)
           tr (st', c)).
Proof.
  intros H.
  assert (Hg : runs (App.setError (Some "Please upload an image to animate") st) tr
                    (st', c) ->
               tr = [] /\
               st' = App.with_error (Some "Please upload an image to animate") st /\
               c = Normal tt).
  { intros G. apply runs_set in G as [-> [= -> ->]]. now repeat split. }
  destruct (App.animateImage st) as [a |] eqn:Ea.
  - destruct a as [| a1 a2] eqn:Ha.
    + left. apply Hg. unfold App.runAnimation in H. now rewrite Ea in H.
    + right. exists a. subst a. split; [reflexivity |]. split; [discriminate |].
      rewrite <- (runAnimation_guarded st _ Ea); [exact H | discriminate].
  - left. apply Hg. unfold App.runAnimation in H. now rewrite Ea in H.
Qed.

(** Every execution of a run handler is one of its guard or one of
    [guarded_run]. *)
Lemma a_run_cases st tr st' c :
  a_run st tr st' c ->
  (exists text, tr = [] /\ st' = App.with_error (Some text) st /\ c = Normal tt) \/
  (exists label service type assetPrompt fallback,
      runs (guarded_run label service type assetPrompt fallback st) tr (st', c)).
Proof.
  intros [H | [H | H]].
  - apply runGeneration_cases in H as [H | [_ H]]; [left; eauto | right; eauto 6].
  - apply runEditing_cases in H as [H | (b & k & _ & _ & _ & _ & H)];
      [left; eauto | right; eauto 6].
  - apply runAnimation_cases in H as [H | (a & _ & _ & H)];
      [left; eauto | right; eauto 6].
Qed.

Lemma guarded_run_frame label service type assetPrompt fallback st tr st' c :
  runs (guarded_run label service type assetPrompt fallback st) tr (st', c) ->
  keeps_inputs st st' /\ grows_history st st'.
Proof.
  intros H.
  apply guarded_run_cases in H
    as (tr_key & ok & tr_service & result & tr_rest & _ & _ & _ & H).
  destruct result as [url | err].
  - destruct H as (id & timestamp & _ & -> & _). split; [now repeat split |].
    right. eexists. split; reflexivity.
  - destruct H as [-> _]. split; [now repeat split |]. left. now split.
Qed.

(** X11.  A run does not clear the form and does not touch the history
    it found.  After every finished execution of [runGeneration],
    [runEditing] or [runAnimation], stopped by the guard or not, failed or
    not, the prompt, the size, the aspect ratio and the three uploaded
    images are as before; and either the assets and the tool are as
    before, or one asset was put in front of the unchanged assets and the
    tool is HISTORY.  No asset is ever removed or altered. *)
Theorem run_keeps_inputs st tr st' c :
  a_run st tr st' c -> keeps_inputs st st' /\ grows_history st st'.
Proof.
  intros H. apply a_run_cases in H
    as [(text & _ & -> & _) | (label & service & type & assetPrompt & fallback & H)].
  - split; [now repeat split |]. left. now split.
  - exact (guarded_run_frame _ _ _ _ _ _ _ _ _ H).
Qed.

Lemma run_keeps_inputs_witness :
  exists st',
    a_run Sample.uploaded
      (CHasSelectedApiKey (Normal true)
         :: Sample.animation_trace
         ++ [CRandomId "k3x9f"; CDateNow 1767225600000])%list
      st' (Normal tt) /\
    keeps_inputs Sample.uploaded st' /\ grows_history Sample.uploaded st'.
Proof.
  destruct sample_animation_run as (st' & H & _).
  exists st'.
  assert (Ha : a_run Sample.uploaded
                 (CHasSelectedApiKey (Normal true)
                    :: Sample.animation_trace
                    ++ [CRandomId "k3x9f"; CDateNow 1767225600000])%list
                 st' (Normal tt)) by (right; right; exact H).
  split; [exact Ha |].
  exact (run_keeps_inputs Sample.uploaded _ st' (Normal tt) Ha).
Defined.

Lemma key_questions_app tr1 tr2 :
  key_questions (tr1 ++ tr2)%list = key_questions tr1 + key_questions tr2.
Proof.
  induction tr1 as [| c tr1 IH]; [reflexivity |].
  destruct c; cbn; rewrite ?IH; reflexivity.
Qed.

(** What the key check calls. *)
Lemma checkApiKey_calls tr c :
  runs App.checkApiKey tr c ->
  content_requests tr = [] /\ video_requests tr = [] /\
  poll_count tr = 0 /\ total_wait tr = 0%Z /\ key_prompts tr <= 1 /\
  exists answer rest, tr = CHasSelectedApiKey answer :: rest /\ key_questions rest = 0.
Proof.
  intros H.
  apply checkApiKey_cases in H
    as [[-> _] | [[-> _] | [(e & -> & _) | (e & -> & _)]]];
    cbn; repeat split; try lia; eexists _, _; split; reflexivity.
Qed.

Lemma image_service_calls tr :
  (exists key e, tr = [CEnvApiKey key; CNewGoogleGenAI key (Thrown e)]) \/
  (exists key ai params c,
      tr = [CEnvApiKey key; CNewGoogleGenAI key (Normal ai);
            CGenerateContent ai params c]) ->
  image_calls_only tr /\ key_prompts tr = 0 /\ key_questions tr = 0.
Proof.
  intros [(key & e & ->) | (key & ai & params & c & ->)];
    cbn; unfold image_calls_only; cbn; repeat split; lia.
Qed.

Lemma download_calls op tail r :
  runs (GeminiService.download op) tail r ->
  content_requests tail = [] /\ key_prompts tail = 0 /\ key_questions tail = 0.
Proof.
  intros H.
  apply download_cases in H
    as [(_ & -> & _) | (link & key & _ & _ &
          [(e & -> & _) | [(v & e & -> & _) | (v & b & u & -> & _)]])];
    now repeat split.
Qed.

Lemma key_questions_polls ai op later : key_questions (polls ai op later) = 0.
Proof.
  revert op. induction later as [| op' later IH]; intros op; [reflexivity |].
  cbn. apply IH.
Qed.

Lemma animateImage_calls imageBase64 prompt aspectRatio tr r :
  runs (GeminiService.animateImage imageBase64 prompt aspectRatio) tr r ->
  video_calls_only tr /\ key_prompts tr = 0 /\ key_questions tr = 0.
Proof.
  intros H. split.
  - split.
    + apply animateImage_requests in H as [(key & e & ->) | ->]; cbn; lia.
    + apply animateImage_shape in H as (key & [(e & -> & _) | (ai & H)]);
        [reflexivity |].
      cbn zeta in H.
      destruct H as [(e & -> & _) | (op & later & _ & H)]; [reflexivity |].
      destruct (polls_facts ai op later) as (_ & _ & Hc & _).
      destruct H as [(_ & e & -> & _) | (_ & tail & -> & Ht)].
      * cbn. rewrite content_requests_app, Hc. reflexivity.
      * apply download_calls in Ht as (Ht & _).
        cbn. rewrite content_requests_app, Hc, Ht. reflexivity.
  - apply animateImage_shape in H as (key & [(e & -> & _) | (ai & H)]);
      [now split |].
    cbn zeta in H.
    destruct H as [(e & -> & _) | (op & later & _ & H)]; [now split |].
    destruct (polls_facts ai op later) as (_ & _ & _ & Hk & _).
    pose proof (key_questions_polls ai op later) as Hq.
    destruct H as [(_ & e & -> & _) | (_ & tail & -> & Ht)].
    + cbn. rewrite key_prompts_app, key_questions_app, Hk, Hq. now split.
    + apply download_calls in Ht as (_ & Ht1 & Ht2).
      cbn. rewrite key_prompts_app, key_questions_app, Hk, Hq, Ht1, Ht2. now split.
Qed.

(** What [guarded_run] calls, given what its service calls. *)
Lemma guarded_run_calls label service type assetPrompt fallback st tr st' c :
  runs (guarded_run label service type assetPrompt fallback st) tr (st', c) ->
  exists tr_key tr_service result tr_rest,
    tr = (tr_key ++ tr_service ++ tr_rest)%list /\
    runs service tr_service result /\
    (content_requests tr_key = [] /\ video_requests tr_key = [] /\
     poll_count tr_key = 0 /\ total_wait tr_key = 0%Z /\ key_prompts tr_key <= 1 /\
     exists answer rest,
       tr_key = CHasSelectedApiKey answer :: rest /\ key_questions rest = 0) /\
    (content_requests tr_rest = [] /\ video_requests tr_rest = [] /\
     poll_count tr_rest = 0 /\ total_wait tr_rest = 0%Z /\ key_prompts tr_rest <= 1 /\
     key_questions tr_rest = 0).
Proof.
  intros H.
  apply guarded_run_cases in H
    as (tr_key & ok & tr_service & result & tr_rest & -> & Hkey & Hsvc & H).
  exists tr_key, tr_service, result, tr_rest.
  split; [reflexivity |]. split; [exact Hsvc |].
  split; [exact (checkApiKey_calls _ _ Hkey) |].
  destruct result as [url | err].
  - destruct H as (id & timestamp & -> & _). cbn. repeat split; lia.
  - destruct H as [_ H]. destruct (includes not_found_text (message err)).
    + subst tr_rest. cbn. repeat split; lia.
    + destruct H as [-> _]. cbn. repeat split; lia.
Qed.

Lemma guarded_image_run_calls label service type assetPrompt fallback st tr st' c :
  (forall tr_service result,
      runs service tr_service result ->
      image_calls_only tr_service /\ key_prompts tr_service = 0 /\
      key_questions tr_service = 0) ->
  runs (guarded_run label service type assetPrompt fallback st) tr (st', c) ->
  image_calls_only tr /\ key_prompts tr <= 2 /\ asks_for_key_first tr.
Proof.
  intros Hservice H.
  apply guarded_run_calls in H
    as (tr_key & tr_service & result & tr_rest & -> & Hsvc & Hk & Hr).
  apply Hservice in Hsvc as ((S1 & S2 & S3 & S4) & S5 & S6).
  destruct Hk as (K1 & K2 & K3 & K4 & K5 & answer & rest & Ekey & K6).
  destruct Hr as (R1 & R2 & R3 & R4 & R5 & R6).
  unfold image_calls_only.
  rewrite !content_requests_app, !video_requests_app, !poll_count_app,
    !total_wait_app, !key_prompts_app, !length_app.
  rewrite K1, K2, K3, K4, S2, S3, S4, R1, R2, R3, R4. cbn [length app].
  split; [repeat split; lia |]. split; [lia |].
  right. exists answer, (rest ++ tr_service ++ tr_rest)%list.
  split; [now rewrite Ekey |]. rewrite !key_questions_app. lia.
Qed.

Lemma guarded_video_run_calls label service type assetPrompt fallback st tr st' c :
  (forall tr_service result,
      runs service tr_service result ->
      video_calls_only tr_service /\ key_prompts tr_service = 0 /\
      key_questions tr_service = 0) ->
  runs (guarded_run label service type assetPrompt fallback st) tr (st', c) ->
  video_calls_only tr /\ key_prompts tr <= 2 /\ asks_for_key_first tr.
Proof.
  intros Hservice H.
  apply guarded_run_calls in H
    as (tr_key & tr_service & result & tr_rest & -> & Hsvc & Hk & Hr).
  apply Hservice in Hsvc as ((S1 & S2) & S5 & S6).
  destruct Hk as (K1 & K2 & K3 & K4 & K5 & answer & rest & Ekey & K6).
  destruct Hr as (R1 & R2 & R3 & R4 & R5 & R6).
  unfold video_calls_only.
  rewrite !content_requests_app, !video_requests_app, !key_prompts_app, !length_app.
  rewrite K1, K2, S2, R1, R2. cbn [length app].
  split; [split; [lia | reflexivity] |]. split; [lia |].
  right. exists answer, (rest ++ tr_service ++ tr_rest)%list.
  split; [now rewrite Ekey |]. rewrite !key_questions_app. lia.
Qed.

(** X12.  What one click costs.  Every finished execution of
    [runGeneration] or [runEditing] makes at most one [generateContent]
    call, no [generateVideos] call, and neither waits nor polls; every
    finished execution of [runAnimation] makes at most one
    [generateVideos] call and no [generateContent] call.  In all three
    the first call, if there is any, is the one
    [window.aistudio.hasSelectedApiKey] question of the run, and the user
    is asked to select a key at most twice. *)
Theorem run_calls st tr st' c :
  (runs (App.runGeneration st) tr (st', c) \/ runs (App.runEditing st) tr (st', c) ->
   image_calls_only tr) /\
  (runs (App.runAnimation st) tr (st', c) -> video_calls_only tr) /\
  (a_run st tr st' c -> key_prompts tr <= 2 /\ asks_for_key_first tr).
Proof.
  assert (Himg : forall p s a tr_service (result : completion string),
             runs (GeminiService.generateImage p s a) tr_service result ->
             image_calls_only tr_service /\ key_prompts tr_service = 0 /\
             key_questions tr_service = 0).
  { intros p s a tr_service result H. apply image_service_calls.
    apply generateImage_cases in H as (key & [(e & -> & _) | (ai & k & -> & _)]);
      [left | right]; eauto. }
  assert (Hedit : forall b k p tr_service (result : completion string),
             runs (GeminiService.editImage b k p) tr_service result ->
             image_calls_only tr_service /\ key_prompts tr_service = 0 /\
             key_questions tr_service = 0).
  { intros b k p tr_service result H. apply image_service_calls.
    apply editImage_cases in H as (key & [(e & -> & _) | (ai & k' & -> & _)]);
      [left | right]; eauto. }
  assert (Hguard : image_calls_only [] /\ video_calls_only [] /\
                   key_prompts [] <= 2 /\ asks_for_key_first []).
  { unfold image_calls_only, video_calls_only. cbn. repeat split; try lia. now left. }
  destruct Hguard as (G1 & G2 & G3 & G4).
  assert (Hgen : runs (App.runGeneration st) tr (st', c) ->
                 image_calls_only tr /\ key_prompts tr <= 2 /\ asks_for_key_first tr).
  { intros H. apply runGeneration_cases in H as [(-> & _) | [_ H]]; [now split |].
    eapply guarded_image_run_calls; [| exact H]. apply Himg. }
  assert (Hed : runs (App.runEditing st) tr (st', c) ->
                image_calls_only tr /\ key_prompts tr <= 2 /\ asks_for_key_first tr).
  { intros H.
    apply runEditing_cases in H as [(-> & _) | (b & k & _ & _ & _ & _ & H)];
      [now split |].
    eapply guarded_image_run_calls; [| exact H]. apply Hedit. }
  assert (Han : runs (App.runAnimation st) tr (st', c) ->
                video_calls_only tr /\ key_prompts tr <= 2 /\ asks_for_key_first tr).
  { intros H.
    apply runAnimation_cases in H as [(-> & _) | (a & _ & _ & H)];
      [now split |].
    eapply guarded_video_run_calls; [| exact H].
    intros tr_service result. apply animateImage_calls. }
  split; [| split].
  - intros [H | H]; [now apply Hgen | now apply Hed].
  - intros H. now apply Han.
  - intros [H | [H | H]]; [now apply Hgen | now apply Hed | now apply Han].
Qed.

(** ** What holds all through a session *)

Lemma or_else_truthy (a b : string) : b <> "" -> or_else a b <> "".
Proof. intros Hb. unfold or_else. now destruct a. Qed.

Lemma image_outcome_url msg c url :
  image_outcome msg c = Normal url ->
  exists data, url = "data:image/png;base64," ++ data.
Proof.
  destruct c as [response | e]; [| discriminate]. unfold image_outcome.
  destruct (find carries_inline _) as [part |]; [| discriminate].
  intros E. inversion E. eexists. reflexivity.
Qed.

Lemma generateImage_url prompt size aspectRatio tr url :
  runs (GeminiService.generateImage prompt size aspectRatio) tr (Normal url) ->
  exists data, url = "data:image/png;base64," ++ data.
Proof.
  intros H. apply generateImage_cases in H as (key & [(e & _ & E) | (ai & c & _ & E)]);
    [discriminate E |].
  symmetry in E. exact (image_outcome_url _ _ _ E).
Qed.

Lemma editImage_url baseImage colorImage prompt tr url :
  runs (GeminiService.editImage baseImage colorImage prompt) tr (Normal url) ->
  exists data, url = "data:image/png;base64," ++ data.
Proof.
  intros H. apply editImage_cases in H as (key & [(e & _ & E) | (ai & c & _ & E)]);
    [discriminate E |].
  symmetry in E. exact (image_outcome_url _ _ _ E).
Qed.

Lemma guarded_run_stores label service type assetPrompt fallback st tr st' c :
  assetPrompt <> "" ->
  (type = image ->
   forall tr_service url,
     runs service tr_service (Normal url) ->
     exists data, url = "data:image/png;base64," ++ data) ->
  runs (guarded_run label service type assetPrompt fallback st) tr (st', c) ->
  App.loading st' = false /\
  (Forall as_stored (App.assets st) -> Forall as_stored (App.assets st')).
Proof.
  intros Hp Hurl H.
  apply guarded_run_cases in H
    as (tr_key & ok & tr_service & result & tr_rest & _ & _ & Hsvc & H).
  destruct result as [url | err].
  - destruct H as (id & timestamp & _ & -> & _). split; [reflexivity |].
    intros Hall. cbn. constructor; [| exact Hall].
    split; [exact Hp |]. cbn. intros Ht. exact (Hurl Ht _ _ Hsvc).
  - destruct H as [-> _]. split; [reflexivity |]. intros Hall. exact Hall.
Qed.

Lemma a_run_stores st tr st' c :
  a_run st tr st' c ->
  App.loading st = false -> Forall as_stored (App.assets st) ->
  App.loading st' = false /\ Forall as_stored (App.assets st').
Proof.
  intros [H | [H | H]] Hl Hall.
  - apply runGeneration_cases in H as [(_ & -> & _) | [Hp H]]; [now split |].
    apply guarded_run_stores in H as [H1 H2]; [auto | exact Hp |].
    intros _ tr_service url. apply generateImage_url.
  - apply runEditing_cases in H as [(_ & -> & _) | (b & k & _ & _ & _ & _ & H)];
      [now split |].
    apply guarded_run_stores in H as [H1 H2];
      [auto | apply or_else_truthy; discriminate |].
    intros _ tr_service url. apply editImage_url.
  - apply runAnimation_cases in H as [(_ & -> & _) | (a & _ & _ & H)]; [now split |].
    apply guarded_run_stores in H as [H1 H2];
      [auto | apply or_else_truthy; discriminate |].
    intros Ht. discriminate Ht.
Qed.

(** X13.  Take a session in which every event is handled to its end
    before the next one: the component is mounted, then the user
    navigates, types, picks a size or a ratio, uploads images (whatever
    the reader hands over) and clicks the three run buttons, in any order
    and with the environment answering the calls in any way.  Between two
    events the loading overlay is down, also after a run whose request
    for a new key was rejected; every asset of the history has a prompt
    that is not empty; and the URL of every image asset starts with
    'data:image/png;base64,'. *)
Theorem session_invariant st :
  Ui.reachable st ->
  App.loading st = false /\ Forall as_stored (App.assets st).
Proof.
  intros H. induction H as [| st st' _ [Hl Hall] Hstep].
  - split; [reflexivity | constructor].
  - destruct Hstep as [tool st | v st | v st | v st | v st | v st | v st
                       | st tr st' c H | st tr st' c H | st tr st' c H];
      try (split; [exact Hl | exact Hall]).
    + apply (a_run_stores st tr st' c); [left; exact H | exact Hl | exact Hall].
    + apply (a_run_stores st tr st' c); [right; left; exact H | exact Hl | exact Hall].
    + apply (a_run_stores st tr st' c); [right; right; exact H | exact Hl | exact Hall].
Qed.

Lemma session_invariant_witness :
  exists st',
    Ui.reachable st' /\
    map asset_prompt (App.assets st') = ["Cinematic Motion"] /\
    App.loading st' = false /\ Forall as_stored (App.assets st').
Proof.
  destruct sample_animation_run as (st' & H & Ha & _).
  exists st'.
  assert (Hr : Ui.reachable st').
  { apply (Ui.reachable_step Sample.uploaded).
    - apply (Ui.reachable_step
               (Ui.with_aspectRatio AR_9_16 (App.with_activeTool ANIMATE Ui.mounted))).
      + apply (Ui.reachable_step (App.with_activeTool ANIMATE Ui.mounted)).
        * apply (Ui.reachable_step Ui.mounted); [apply Ui.reachable_mounted |].
          apply Ui.navigate.
        * apply Ui.pick_ratio.
      + apply (Ui.upload_animate (Some Sample.base)).
    - exact (Ui.animation _ _ _ _ H). }
  split; [exact Hr |]. split; [now rewrite Ha |].
  exact (session_invariant st' Hr).
Defined.

(** ** What a click sends *)

Lemma guarded_run_requests label service type assetPrompt fallback st tr st' c :
  runs (guarded_run label service type assetPrompt fallback st) tr (st', c) ->
  exists tr_service result,
    runs service tr_service result /\
    content_requests tr = content_requests tr_service /\
    video_requests tr = video_requests tr_service.
Proof.
  intros H.
  apply guarded_run_calls in H
    as (tr_key & tr_service & result & tr_rest & -> & Hsvc & Hk & Hr).
  destruct Hk as (K1 & K2 & _). destruct Hr as (R1 & R2 & _).
  exists tr_service, result. split; [exact Hsvc |].
  rewrite !content_requests_app, !video_requests_app, K1, K2, R1, R2, !app_nil_r.
  now split.
Qed.

(** X14.  What a click sends is the form as it was when the handler
    started.  If an execution of [runGeneration] sends a request at all,
    it is the one request of [generateImage] on the prompt, the size and
    the aspect ratio of the state; that of [runEditing] is the request of
    [editImage] on the two uploaded images and the prompt; that of
    [runAnimation] is the request of [animateImage] on the uploaded image,
    the prompt and the aspect ratio.  The one prompt field serves the
    three tools. *)
Theorem run_sends_form st tr st' c :
  (runs (App.runGeneration st) tr (st', c) ->
   content_requests tr = [] \/
   content_requests tr =
     [GeminiService.generateImage_params
        (App.prompt st) (App.size st) (App.aspectRatio st)]) /\
  (runs (App.runEditing st) tr (st', c) ->
   content_requests tr = [] \/
   exists baseImage colorImage,
     App.baseImage st = Some baseImage /\ App.colorImage st = Some colorImage /\
     content_requests tr =
       [GeminiService.editImage_params baseImage colorImage (App.prompt st)]) /\
  (runs (App.runAnimation st) tr (st', c) ->
   video_requests tr = [] \/
   exists animateImage,
     App.animateImage st = Some animateImage /\
     video_requests tr =
       [GeminiService.animateImage_params
          animateImage (App.prompt st) (App.aspectRatio st)]).
Proof.
  split; [| split]; intros H.
  - apply runGeneration_cases in H as [(-> & _) | [_ H]]; [now left |].
    apply guarded_run_requests in H as (tr_service & result & Hs & -> & _).
    apply generateImage_cases in Hs as (key & [(e & -> & _) | (ai & k & -> & _)]);
      [now left | now right].
  - apply runEditing_cases in H as [(-> & _) | (b & k & Eb & Ek & _ & _ & H)];
      [now left |].
    apply guarded_run_requests in H as (tr_service & result & Hs & -> & _).
    apply editImage_cases in Hs as (key & [(e & -> & _) | (ai & k' & -> & _)]);
      [now left |].
    right. now exists b, k.
  - apply runAnimation_cases in H as [(-> & _) | (a & Ea & _ & H)]; [now left |].
    apply guarded_run_requests in H as (tr_service & result & Hs & _ & ->).
    apply animateImage_requests in Hs as [(key & e & ->) | Hs]; [now left |].
    right. now exists a.
Qed.

(** ** Sample executions *)

Lemma sample_generation_runs :
  runs (GeminiService.generateImage "a red fox" Size1K AR_1_1)
       (client_calls Sample.key Sample.ai
          ++ [CGenerateContent Sample.ai
                (GeminiService.generateImage_params "a red fox" Size1K AR_1_1)
                (Normal Sample.image_response)])%list
       (Normal "data:image/png;base64,iVBORw0KGgo=").
Proof.
  apply (exec_runs 8 (scripted_world Sample.key (Normal Sample.image_response)
                        Sample.no_videos (Normal true)) 0).
  vm_compute. reflexivity.
Qed.

Lemma sample_generation_rejected :
  runs (GeminiService.generateImage "a red fox" Size1K AR_1_1)
       (client_calls Sample.key Sample.ai
          ++ [CGenerateContent Sample.ai
                (GeminiService.generateImage_params "a red fox" Size1K AR_1_1)
                (Thrown (mkError "quota exceeded"))])%list
       (Thrown (mkError "quota exceeded")).
Proof.
  apply (exec_runs 8 (scripted_world Sample.key (Thrown (mkError "quota exceeded"))
                        Sample.no_videos (Normal true)) 0).
  vm_compute. reflexivity.
Qed.

Lemma service_on_fresh_client_witness :
  runs (GeminiService.animateImage Sample.base "" AR_9_16)
       Sample.animation_trace (Normal Sample.url) /\
  on_fresh_client Sample.animation_trace (Normal Sample.url).
Proof.
  split; [exact sample_animation_runs |].
  exact (proj2 (proj2 (service_on_fresh_client
                         "" Size1K AR_9_16 "" "" Sample.base
                         Sample.animation_trace (Normal Sample.url)))
           sample_animation_runs).
Defined.

Lemma service_stops_at_rejection_witness :
  runs (GeminiService.generateImage "a red fox" Size1K AR_1_1)
       (client_calls Sample.key Sample.ai
          ++ [CGenerateContent Sample.ai
                (GeminiService.generateImage_params "a red fox" Size1K AR_1_1)
                (Thrown (mkError "quota exceeded"))])%list
       (Thrown (mkError "quota exceeded")) /\
  stops_at_rejection (A := string) "No image data returned from model"
    (client_calls Sample.key Sample.ai
       ++ [CGenerateContent Sample.ai
             (GeminiService.generateImage_params "a red fox" Size1K AR_1_1)
             (Thrown (mkError "quota exceeded"))])%list
    (Thrown (mkError "quota exceeded")).
Proof.
  split; [exact sample_generation_rejected |].
  exact (proj1 (service_stops_at_rejection
                  "a red fox" Size1K AR_1_1 "" "" "" _ _)
           sample_generation_rejected).
Defined.

Lemma sample_empty_first_runs :
  runs (GeminiService.generateImage "a red fox" Size1K AR_1_1)
       (client_calls Sample.key Sample.ai
          ++ [CGenerateContent Sample.ai
                (GeminiService.generateImage_params "a red fox" Size1K AR_1_1)
                (Normal Sample.empty_first_response)])%list
       (Normal "data:image/png;base64,undefined").
Proof.
  apply (exec_runs 8 (scripted_world Sample.key (Normal Sample.empty_first_response)
                        Sample.no_videos (Normal true)) 0).
  vm_compute. reflexivity.
Qed.

Lemma image_url_is_png_data_url_witness :
  runs (GeminiService.generateImage "a red fox" Size1K AR_1_1)
       (client_calls Sample.key Sample.ai
          ++ [CGenerateContent Sample.ai
                (GeminiService.generateImage_params "a red fox" Size1K AR_1_1)
                (Normal Sample.empty_first_response)])%list
       (Normal "data:image/png;base64,undefined") /\
  exists blob,
    find carries_inline (first_candidate_parts Sample.empty_first_response)
    = Some Sample.empty_part /\
    Sdk.inlineData Sample.empty_part = Some blob /\
    Sdk.mimeType blob = Some "image/jpeg" /\
    "data:image/png;base64,undefined"
    = "data:image/png;base64," ++ interpolate (Sdk.data blob).
Proof.
  split; [exact sample_empty_first_runs |].
  destruct (proj1 (image_url_is_png_data_url "a red fox" Size1K AR_1_1 "" "" _ _)
              sample_empty_first_runs)
    as (key & ai & response & part & blob & E & Hf & Hb & Hu).
  cbn in E. inversion E; subst key ai response; clear E.
  cbn in Hf. injection Hf as <-. cbn in Hb. injection Hb as <-.
  eexists. split; [reflexivity |]. split; [reflexivity |]. split; [reflexivity |].
  exact Hu.
Defined.

Lemma animateImage_waits_witness :
  runs (GeminiService.animateImage Sample.base "" AR_9_16)
       Sample.animation_trace (Normal Sample.url) /\
  poll_count Sample.animation_trace = 2 /\
  total_wait Sample.animation_trace = 20000%Z /\
  pending_received Sample.animation_trace = 2.
Proof.
  split; [exact sample_animation_runs |]. split; [reflexivity |].
  destruct (animateImage_waits _ _ _ _ _ sample_animation_runs) as (Hw & Hp & _).
  split; [exact Hw | symmetry; exact Hp].
Defined.


Lemma run_goes_through_witness :
  App.prompt Sample.prompted <> "" /\
  runs App.checkApiKey
       [CHasSelectedApiKey (Thrown (mkError "aistudio is undefined"));
        CConsoleError "API Key selection error" (mkError "aistudio is undefined")]
       (Normal false) /\
  exists st',
    runs (App.runGeneration Sample.prompted)
         ([CHasSelectedApiKey (Thrown (mkError "aistudio is undefined"));
           CConsoleError "API Key selection error" (mkError "aistudio is undefined")]
            ++ (client_calls Sample.key Sample.ai
                  ++ [CGenerateContent Sample.ai
                        (GeminiService.generateImage_params "a red fox" Size1K AR_1_1)
                        (Normal Sample.image_response)])
            ++ [CRandomId "k3x9f"; CDateNow 1767225600000])%list
         (st', Normal tt) /\
    map asset_url (App.assets st') = ["data:image/png;base64,iVBORw0KGgo="].
Proof.
  assert (Hne : App.prompt Sample.prompted <> "") by discriminate.
  assert (Hkey : runs App.checkApiKey
                   [CHasSelectedApiKey (Thrown (mkError "aistudio is undefined"));
                    CConsoleError "API Key selection error"
                      (mkError "aistudio is undefined")]
                   (Normal false)).
  { apply checkApiKey_cases. right. right. right. now exists (mkError "aistudio is undefined"). }
  split; [exact Hne |]. split; [exact Hkey |].
  eexists. split.
  - exact (proj1 (proj1 (run_goes_through Sample.prompted) Hne _ _ _ Hkey)
             _ "k3x9f" 1767225600000%Z sample_generation_runs).
  - reflexivity.
Defined.

Lemma run_ends_quietly_witness :
  exists st',
    runs (App.runGeneration Sample.prompted)
         [CHasSelectedApiKey (Normal true);
          CEnvApiKey Sample.key;
          CNewGoogleGenAI Sample.key (Normal Sample.ai);
          CGenerateContent Sample.ai
            (GeminiService.generateImage_params "a red fox" Size1K AR_1_1)
            (Thrown (mkError ""))]
         (st', Normal tt) /\
    ends_quietly
      (GeminiService.generateImage "a red fox" Size1K AR_1_1)
      [CHasSelectedApiKey (Normal true);
       CEnvApiKey Sample.key;
       CNewGoogleGenAI Sample.key (Normal Sample.ai);
       CGenerateContent Sample.ai
         (GeminiService.generateImage_params "a red fox" Size1K AR_1_1)
         (Thrown (mkError ""))]
      (Normal tt).
Proof.
  destruct sample_failed_generation_run as (st' & H & _).
  exists st'. split; [exact H |].
  assert (Hne : App.prompt Sample.prompted <> "") by discriminate.
  exact (proj1 (run_ends_quietly Sample.prompted _ st' (Normal tt)) Hne H).
Defined.

Lemma run_calls_witness :
  exists st',
    runs (App.runAnimation Sample.uploaded)
         (CHasSelectedApiKey (Normal true)
            :: Sample.animation_trace
            ++ [CRandomId "k3x9f"; CDateNow 1767225600000])%list
         (st', Normal tt) /\
    video_calls_only
      (CHasSelectedApiKey (Normal true)
         :: Sample.animation_trace
         ++ [CRandomId "k3x9f"; CDateNow 1767225600000])%list.
Proof.
  destruct sample_animation_run as (st' & H & _).
  exists st'. split; [exact H |].
  exact (proj1 (proj2 (run_calls Sample.uploaded _ st' (Normal tt))) H).
Defined.

Lemma run_sends_form_witness :
  exists st',
    runs (App.runAnimation Sample.uploaded)
         (CHasSelectedApiKey (Normal true)
            :: Sample.animation_trace
            ++ [CRandomId "k3x9f"; CDateNow 1767225600000])%list
         (st', Normal tt) /\
    video_requests
      (CHasSelectedApiKey (Normal true)
         :: Sample.animation_trace
         ++ [CRandomId "k3x9f"; CDateNow 1767225600000])%list
    = [GeminiService.animateImage_params Sample.base "" AR_9_16] /\
    (video_requests
       (CHasSelectedApiKey (Normal true)
          :: Sample.animation_trace
          ++ [CRandomId "k3x9f"; CDateNow 1767225600000])%list = [] \/
     exists animateImage,
       App.animateImage Sample.uploaded = Some animateImage /\
       video_requests
         (CHasSelectedApiKey (Normal true)
            :: Sample.animation_trace
            ++ [CRandomId "k3x9f"; CDateNow 1767225600000])%list
       = [GeminiService.animateImage_params
            animateImage (App.prompt Sample.uploaded)
            (App.aspectRatio Sample.uploaded)]).
Proof.
  destruct sample_animation_run as (st' & H & _).
  exists st'. split; [exact H |]. split; [reflexivity |].
  exact (proj2 (proj2 (run_sends_form Sample.uploaded _ st' (Normal tt))) H).
Defined.
